(** * ste::Timer: a model of [include/timer.hpp]

    The class [ste::Timer<Function>] owns four fields and starts a detached
    thread whose body is one of the two lambdas of [on_run].  The lambdas
    capture [this], so every field they mention is read from (and written
    to) the Timer object shared with the caller.

    The embedding is a small-step interleaving semantics:
    - the Timer object is a record with the four fields of the class;
    - a background thread is a control point ([PC]) inside one of the two
      lambdas; one step executes one statement of the lambda on the shared
      object;
    - the caller's thread acts through the public methods;
    - time is a millisecond clock; [sleep_for] blocks a thread until the
      clock has reached its wake-up time (it may sleep longer);
    - invoking [_function] is recorded in a log of calls, the callable
      itself being opaque (it is assumed not to touch the Timer).

    Statements execute atomically and in interleaving order; the C++ memory
    model (the accesses are not synchronised) is outside this model. *)

From Stdlib Require Import String ZArith Lia.
From stdpp Require Import base list.

Local Open Scope Z_scope.

Section TimerModel.

(** The template parameter of the class. *)
Context {Function : Type}.

(** ** The object *)

(** The private fields, timer.hpp:102-105. [_ms_delay] counts
    milliseconds ([std::chrono::milliseconds], a signed tick count). *)
Record Timer := mkTimer {
  _stopped : bool;
  _is_single_shot : bool;
  _ms_delay : Z;
  _function : Function
}.

Definition set_stopped (b : bool) (t : Timer) : Timer :=
  mkTimer b (_is_single_shot t) (_ms_delay t) (_function t).

Definition set_is_single_shot (b : bool) (t : Timer) : Timer :=
  mkTimer (_stopped t) b (_ms_delay t) (_function t).

Definition set_function (f : Function) (t : Timer) : Timer :=
  mkTimer (_stopped t) (_is_single_shot t) (_ms_delay t) f.

(** ** The background threads *)

(** Control points of the two lambdas of [on_run].  [SS_*] are the
    statements of the single-shot lambda (timer.hpp:217-222), [R_*] those of
    the repeating one (timer.hpp:234-241).  [*_Sleeping wake] is a thread
    blocked inside [sleep_for] until the clock reaches [wake]; [*_InCall] is
    a thread inside the call [_function()]. *)
Inductive PC : Type :=
| SS_Check1                 (* 217: if(_stopped){return;} *)
| SS_Sleep                  (* 218: std::this_thread::sleep_for(_ms_delay) *)
| SS_Sleeping (wake : Z)    (* 218: blocked in sleep_for *)
| SS_Check2                 (* 219: if(_stopped){return;} *)
| SS_Invoke                 (* 220: _function() is entered *)
| SS_InCall                 (* 220: _function() is executing *)
| SS_SetStopped             (* 221: _stopped = true *)
| R_While                   (* 234: while(!_is_single_shot) *)
| R_Check1                  (* 235: if(_stopped){return;} *)
| R_Sleep                   (* 236: std::this_thread::sleep_for(_ms_delay) *)
| R_Sleeping (wake : Z)     (* 236: blocked in sleep_for *)
| R_Check2                  (* 237: if(_stopped){return;} *)
| R_Invoke                  (* 238: _function() is entered *)
| R_InCall                  (* 238: _function() is executing *)
| R_SetStopped              (* 240: _stopped = true *)
| Done.                     (* the lambda has returned *)

(** [sleep_for d] called at time [clk]: the earliest wake-up time.  A zero
    or negative duration does not block. *)
Definition sleep_for (clk d : Z) : Z := clk + Z.max 0 d.

(** One statement of the lambda at control point [pc], executed at time
    [clk] on the shared object [t].  The result is the object afterwards,
    the next control point, and the callable that was entered, if any. *)
Definition on_run_step (clk : Z) (t : Timer) (pc : PC)
  : Timer * PC * option Function :=
  match pc with
  | SS_Check1 => (t, if _stopped t then Done else SS_Sleep, None)
  | SS_Sleep => (t, SS_Sleeping (sleep_for clk (_ms_delay t)), None)
  | SS_Sleeping wake => (t, if wake <=? clk then SS_Check2 else SS_Sleeping wake, None)
  | SS_Check2 => (t, if _stopped t then Done else SS_Invoke, None)
  | SS_Invoke => (t, SS_InCall, Some (_function t))
  | SS_InCall => (t, SS_SetStopped, None)
  | SS_SetStopped => (set_stopped true t, Done, None)
  | R_While => (t, if negb (_is_single_shot t) then R_Check1 else R_SetStopped, None)
  | R_Check1 => (t, if _stopped t then Done else R_Sleep, None)
  | R_Sleep => (t, R_Sleeping (sleep_for clk (_ms_delay t)), None)
  | R_Sleeping wake => (t, if wake <=? clk then R_Check2 else R_Sleeping wake, None)
  | R_Check2 => (t, if _stopped t then Done else R_Invoke, None)
  | R_Invoke => (t, R_InCall, Some (_function t))
  | R_InCall => (t, R_While, None)
  | R_SetStopped => (set_stopped true t, Done, None)
  | Done => (t, Done, None)
  end.

(** ** The process around the object *)

(** One entry of the call log: which thread entered which callable, when. *)
Record Call := mkCall {
  call_thread : nat;
  call_time : Z;
  call_fn : Function
}.

(** Everything outside the object: the detached threads spawned so far
    (thread [i] is at control point [threads !! i]), the clock, and the
    log of calls, most recent first. *)
Record Env := mkEnv {
  threads : list PC;
  now : Z;
  log : list Call
}.

Record System := mkSystem {
  timer : Timer;
  env : Env
}.

(** A member function: it returns a value and the system afterwards. *)
Definition Method (A : Type) : Type := System -> A * System.

(** [std::thread t(lambda); t.detach();] *)
Definition spawn (pc : PC) (e : Env) : Env :=
  mkEnv (threads e ++ [pc]) (now e) (log e).

(** ** The class *)

(** The constructor, timer.hpp:118-127.  The third argument has the default
    value [true]; [None] is a call that omits it. *)
Definition Timer_new (function : Function) (_delay : Z)
    (single_shot : option bool) (e : Env) : System :=
  mkSystem (mkTimer true (default true single_shot) _delay function) e.

(** [on_run], timer.hpp:211-247: the mode read here selects the lambda.
    The member is virtual; this is the body of [ste::Timer] itself, not of
    a subclass that overrides it.  This is the path on which the
    constructor of [std::thread] succeeds; the path on which it throws is
    [start_spawn_fails] below. *)
Definition on_run (s : System) : System :=
  if _is_single_shot (timer s)
  then mkSystem (timer s) (spawn SS_Check1 (env s))
  else mkSystem (timer s) (spawn R_While (env s)).

(** [start], timer.hpp:140-147.  The returned reference [*this] is
    rendered as the object of the resulting system. *)
Definition start : Method Timer := fun s =>
  if _stopped (timer s) then
    let s1 := on_run (mkSystem (set_stopped false (timer s)) (env s)) in
    (timer s1, s1)
  else (timer s, s).

(** [stop], timer.hpp:153-156. *)
Definition stop : Method Timer := fun s =>
  let s1 := mkSystem (set_stopped true (timer s)) (env s) in
  (timer s1, s1).

(** [stopped], timer.hpp:173. *)
Definition stopped : Method bool := fun s => (_stopped (timer s), s).

(** [running], timer.hpp:166: [return !stopped();] *)
Definition running : Method bool := fun s =>
  let '(b, s1) := stopped s in (negb b, s1).

(** [is_single_shot], timer.hpp:181 and 188.  The second overload returns
    [bool&]; a write through that reference is [assign_is_single_shot]. *)
Definition is_single_shot : Method bool := fun s =>
  (_is_single_shot (timer s), s).

Definition assign_is_single_shot (b : bool) : Method unit := fun s =>
  (tt, mkSystem (set_is_single_shot b (timer s)) (env s)).

(** [function], timer.hpp:196 and 202; a write through the returned
    [Function&] is [assign_function]. *)
Definition function : Method Function := fun s => (_function (timer s), s).

Definition assign_function (f : Function) : Method unit := fun s =>
  (tt, mkSystem (set_function f (timer s)) (env s)).

(** ** Executions *)

(** What can happen next: a call or assignment on the caller's thread, the
    next statement of background thread [i], or the passage of [d]
    milliseconds. *)
Inductive Action : Type :=
| Start
| Stop
| SetSingleShot (b : bool)
| SetFunction (f : Function)
| Run (i : nat)
| Elapse (d : Z).

(** Thread [i] executes its next statement. *)
Definition run_thread (i : nat) (s : System) : System :=
  match threads (env s) !! i with
  | None => s
  | Some pc =>
      let '(t1, pc1, entered) := on_run_step (now (env s)) (timer s) pc in
      mkSystem t1
        (mkEnv (<[i := pc1]> (threads (env s)))
               (now (env s))
               (match entered with
                | Some f => mkCall i (now (env s)) f :: log (env s)
                | None => log (env s)
                end))
  end.

Definition elapse (d : Z) (s : System) : System :=
  mkSystem (timer s)
    (mkEnv (threads (env s)) (now (env s) + Z.max 0 d) (log (env s))).

Definition step (a : Action) (s : System) : System :=
  match a with
  | Start => snd (start s)
  | Stop => snd (stop s)
  | SetSingleShot b => snd (assign_is_single_shot b s)
  | SetFunction f => snd (assign_function f s)
  | Run i => run_thread i s
  | Elapse d => elapse d s
  end.

(** A schedule is a list of actions, executed from left to right. *)
Fixpoint exec (sched : list Action) (s : System) : System :=
  match sched with
  | [] => s
  | a :: rest => exec rest (step a s)
  end.

(** Thread [i] running on its own: nobody else acts; when the thread is
    blocked in [sleep_for], time passes until its wake-up time.  [fuel]
    bounds the number of statements. *)
Fixpoint run_alone (fuel : nat) (i : nat) (s : System) : System :=
  match fuel with
  | O => s
  | S k =>
      match threads (env s) !! i with
      | None | Some Done => s
      | Some (SS_Sleeping wake) | Some (R_Sleeping wake) =>
          run_alone k i (run_thread i (elapse (wake - now (env s)) s))
      | Some _ => run_alone k i (run_thread i s)
      end
  end.

(** The calls entered by thread [i] in a log. *)
Definition calls_of (i : nat) (l : list Call) : list Call :=
  filter (fun c => call_thread c = i) l.

(** A process in which no thread has been spawned yet, at time 0. *)
Definition idle_env : Env := mkEnv [] 0 [].

(** The schedule of one round of repeating loop [i] when [d] milliseconds
    pass during its sleep: the test of the mode, the first check, the call
    of [sleep_for], the wake-up, the second check, the entry of the
    callback and its return. *)
Definition one_tick (i : nat) (d : Z) : list Action :=
  [Run i; Run i; Run i; Elapse d; Run i; Run i; Run i; Run i].

(** ** Schedules and proof-level views of the loop *)

(** No other party acts: only thread [i] runs and time passes. *)
Definition undisturbed (i : nat) (a : Action) : bool :=
  match a with
  | Run j => Nat.eqb j i
  | Elapse _ => true
  | _ => false
  end.

(** As [undisturbed], but the caller may also assign the mode. *)
Definition mode_writes_only (i : nat) (a : Action) : bool :=
  match a with
  | Run j => Nat.eqb j i
  | Elapse _ | SetSingleShot _ => true
  | _ => false
  end.

Definition no_start (a : Action) : bool :=
  match a with Start => false | _ => true end.

(** Neither [start()] nor an assignment of [false] to the mode. *)
Definition no_start_no_repeat (a : Action) : bool :=
  match a with
  | Start | SetSingleShot false => false
  | _ => true
  end.

Definition no_set_function (a : Action) : bool :=
  match a with SetFunction _ => false | _ => true end.

(** A thread that is between two statements, neither blocked in
    [sleep_for], nor inside the callback, nor finished. *)
Definition busy (pc : PC) : bool :=
  match pc with
  | SS_Sleeping _ | R_Sleeping _ | SS_InCall | R_InCall | Done => false
  | _ => true
  end.

(** A schedule is prompt when time passes only while no thread is [busy]:
    the statements of the lambdas themselves take no time. *)
Fixpoint prompt (sched : list Action) (s : System) : bool :=
  match sched with
  | [] => true
  | a :: rest =>
      match a with
      | Elapse _ => forallb (fun pc => negb (busy pc)) (threads (env s))
      | _ => true
      end && prompt rest (step a s)
  end.

(** The thread is about to enter the callback: both checks are behind it. *)
Definition at_invoke (pc : PC) : bool :=
  match pc with SS_Invoke | R_Invoke => true | _ => false end.

Definition in_repeating_loop (pc : PC) : bool :=
  match pc with
  | R_While | R_Check1 | R_Sleep | R_Sleeping _ | R_Check2 | R_Invoke
  | R_InCall | R_SetStopped => true
  | _ => false
  end.

Definition in_single_shot (pc : PC) : bool :=
  match pc with
  | SS_Check1 | SS_Sleep | SS_Sleeping _ | SS_Check2 | SS_Invoke
  | SS_InCall | SS_SetStopped => true
  | _ => false
  end.

(** [run_alone] seen from the thread: the object, the control point, the
    clock and the log after [fuel] statements of thread [i]. *)
Fixpoint solo (fuel : nat) (i : nat) (clk : Z) (t : Timer) (pc : PC)
    (l : list Call) : Timer * PC * Z * list Call :=
  match fuel with
  | O => (t, pc, clk, l)
  | S k =>
      match pc with
      | Done => (t, pc, clk, l)
      | _ =>
          let clk1 :=
            match pc with
            | SS_Sleeping wake | R_Sleeping wake => clk + Z.max 0 (wake - clk)
            | _ => clk
            end in
          let '(t1, pc1, entered) := on_run_step clk1 t pc in
          solo k i clk1 t1 pc1
            (match entered with
             | Some f => mkCall i clk1 f :: l
             | None => l
             end)
      end
  end.

(** Where a single-shot loop spawned in state [s0] as thread [i] can be,
    when nobody but the loop and the clock (and writers of the mode) has
    acted since: before the call the flag is clear and the log is as it
    was; the call is entered no earlier than [_ms_delay] after the spawn;
    the loop ends with the flag set. *)
Definition single_shot_progress (i : nat) (s0 s : System) : Prop :=
  let due := now (env s0) + Z.max 0 (_ms_delay (timer s0)) in
  let fired :=
    exists tm, log (env s) = mkCall i tm (_function (timer s0)) :: log (env s0)
               /\ due <= tm in
  _function (timer s) = _function (timer s0)
  /\ _ms_delay (timer s) = _ms_delay (timer s0)
  /\ now (env s0) <= now (env s)
  /\ exists pc, threads (env s) !! i = Some pc /\
     match pc with
     | SS_Check1 | SS_Sleep =>
         _stopped (timer s) = false /\ log (env s) = log (env s0)
     | SS_Sleeping wake =>
         _stopped (timer s) = false /\ log (env s) = log (env s0) /\ due <= wake
     | SS_Check2 | SS_Invoke =>
         _stopped (timer s) = false /\ log (env s) = log (env s0)
         /\ due <= now (env s)
     | SS_InCall | SS_SetStopped => _stopped (timer s) = false /\ fired
     | Done => _stopped (timer s) = true /\ fired
     | _ => False
     end.

(** How many more calls a repeating loop at [pc] can enter once the mode
    is single-shot and stays so. *)
Definition calls_left (pc : PC) : nat :=
  match pc with
  | R_Check1 | R_Sleep | R_Sleeping _ | R_Check2 | R_Invoke => 1
  | _ => 0
  end.

(** Where a repeating loop [i] can be once the mode has been set to
    single-shot and stays so, [l0] being the log at that moment: the calls
    it has entered since and those it can still enter are at most one, and
    it ends with the flag set. *)
Definition downgraded (i : nat) (l0 : list Call) (s : System) : Prop :=
  _is_single_shot (timer s) = true
  /\ exists pc new,
       threads (env s) !! i = Some pc
       /\ (in_repeating_loop pc = true \/ pc = Done)
       /\ log (env s) = new ++ l0
       /\ (length (calls_of i new) + calls_left pc <= 1)%nat
       /\ (pc = Done -> _stopped (timer s) = true).

(** The callback was assigned [g] when the log was [l0], and has not
    been assigned since: every call entered since then is a call of [g]. *)
Definition calls_new_callback (g : Function) (l0 : list Call) (s : System) : Prop :=
  _function (timer s) = g
  /\ exists new, log (env s) = new ++ l0
                 /\ Forall (fun c => call_fn c = g) new.


(** As [after_stop], for a prompt schedule: [T] is the time of the stop;
    either no time has passed since, or no thread is about to enter the
    callback; every call entered since the stop was entered at [T]. *)
Definition after_stop_prompt (T : Z) (l0 : list Call) (s : System) : Prop :=
  _stopped (timer s) = true
  /\ (now (env s) = T
      \/ forall i pc, threads (env s) !! i = Some pc -> at_invoke pc = false)
  /\ exists new, log (env s) = new ++ l0
                 /\ Forall (fun c => call_time c = T) new.

(** ** Further schedules and invariants *)

Definition no_set_mode (a : Action) : bool :=
  match a with SetSingleShot _ => false | _ => true end.

(** The calls of [start()] in a schedule. *)
Fixpoint count_starts (sched : list Action) : nat :=
  match sched with
  | [] => O
  | Start :: rest => S (count_starts rest)
  | _ :: rest => count_starts rest
  end.


(** Some thread has not returned from its lambda. *)
Definition has_live_loop (s : System) : Prop :=
  exists i pc, threads (env s) !! i = Some pc /\ pc <> Done.

(** Times, most recent first, that are at least [d] apart. *)
Fixpoint spaced (d : Z) (ts : list Z) : Prop :=
  match ts with
  | t1 :: rest =>
      match rest with
      | t2 :: _ => t2 + d <= t1
      | [] => True
      end /\ spaced d rest
  | [] => True
  end.

(** The times at which thread [i] entered the callback. *)
Definition call_times (i : nat) (l : list Call) : list Z :=
  map call_time (calls_of i l).

(** Thread [i] was spawned in state [s0].  Since then its calls are at
    least [_ms_delay] apart and none is earlier than [_ms_delay] after the
    spawn; [last] is the time of its latest call (of the spawn, before the
    first): the thread wakes up, and passes its second check, no earlier
    than [_ms_delay] after [last]. *)
Definition paced (i : nat) (s0 s : System) : Prop :=
  let d := Z.max 0 (_ms_delay (timer s0)) in
  _ms_delay (timer s) = _ms_delay (timer s0)
  /\ exists new pc,
       log (env s) = new ++ log (env s0)
       /\ threads (env s) !! i = Some pc
       /\ spaced d (call_times i new)
       /\ Forall (fun tm => now (env s0) + d <= tm) (call_times i new)
       /\ hd (now (env s0)) (call_times i new) <= now (env s)
       /\ match pc with
          | SS_Sleeping wake | R_Sleeping wake =>
              hd (now (env s0)) (call_times i new) + d <= wake
          | SS_Check2 | SS_Invoke | R_Check2 | R_Invoke =>
              hd (now (env s0)) (call_times i new) + d <= now (env s)
          | _ => True
          end.

(** ** The claims on the callback and on [stop()], in the words of the
    specification *)

(** A tick (one sleep-then-invoke cycle of the repeating loop) is in
    flight and its call has not been entered yet: the loop is between the
    first check of the round and the call. *)
Definition tick_in_flight (pc : PC) : bool :=
  match pc with
  | R_Check1 | R_Sleep | R_Sleeping _ | R_Check2 | R_Invoke => true
  | _ => false
  end.

(** "The next tick, not the tick already in flight, invokes the new
    callback": when the callback is assigned [g] in state [s], the call
    that loop [i] enters within the round in flight (five statements at
    most lead from the first check to the call) is a call of the callback
    held before the assignment. *)
Definition in_flight_tick_calls_old (s : System) (i : nat) (g : Function) : Prop :=
  forall n tm f,
    (n <= 5)%nat ->
    log (env (run_alone n i (snd (assign_function g s)))) =
      mkCall i tm f :: log (env s) ->
    f = _function (timer s).


(** ** [start()] when the thread cannot be created *)

(** [start], timer.hpp:140-147, on the path on which the constructor of
    [std::thread] throws ([std::system_error]) inside [on_run]:
    [_stopped = false] (line 143) has been executed, no thread exists, and
    the exception leaves [start()].  On a running Timer [on_run] is not
    called and nothing can fail. *)
Definition start_spawn_fails (s : System) : System :=
  if _stopped (timer s)
  then mkSystem (set_stopped false (timer s)) (env s)
  else s.

Definition no_stop (a : Action) : bool :=
  match a with Stop => false | _ => true end.

(** ** Executions: general facts *)

Lemma exec_app (l1 l2 : list Action) (s : System) :
  exec (l1 ++ l2) s = exec l2 (exec l1 s).
Proof. revert s; induction l1 as [|a l1 IH]; intros s; simpl; auto. Qed.

(** A property preserved by every permitted action holds after every
    schedule of permitted actions. *)
Lemma exec_invariant (I : System -> Prop) (ok : Action -> bool) :
  (forall a s, ok a = true -> I s -> I (step a s)) ->
  forall sched s, forallb ok sched = true -> I s -> I (exec sched s).
Proof.
  intros Hstep sched; induction sched as [|a rest IH]; intros s Hok Hs; simpl in *.
  - exact Hs.
  - apply andb_prop in Hok as [Ha Hrest]. apply IH; auto.
Qed.

Lemma forallb_weaken {A} (p q : A -> bool) (l : list A) :
  (forall a, p a = true -> q a = true) ->
  forallb p l = true -> forallb q l = true.
Proof.
  intros Hpq; induction l as [|a l IH]; simpl; auto.
  intros H; apply andb_prop in H as [Ha Hl].
  rewrite (Hpq _ Ha), (IH Hl). reflexivity.
Qed.

Lemma run_thread_absent (i : nat) (s : System) :
  threads (env s) !! i = None -> run_thread i s = s.
Proof. intros H; unfold run_thread; rewrite H; reflexivity. Qed.

Lemma run_thread_at (i : nat) (s : System) (pc : PC) :
  threads (env s) !! i = Some pc ->
  run_thread i s =
    mkSystem (on_run_step (now (env s)) (timer s) pc).1.1
      (mkEnv (<[i := (on_run_step (now (env s)) (timer s) pc).1.2]>
                (threads (env s)))
             (now (env s))
             (match (on_run_step (now (env s)) (timer s) pc).2 with
              | Some f => mkCall i (now (env s)) f :: log (env s)
              | None => log (env s)
              end)).
Proof.
  intros H; unfold run_thread; rewrite H.
  destruct (on_run_step _ _ _) as [[t1 pc1] entered]; reflexivity.
Qed.

(** A statement of a lambda writes at most [_stopped], and only [true]. *)
Lemma on_run_step_object (clk : Z) (t : Timer) (pc : PC) :
  (on_run_step clk t pc).1.1 = t
  \/ (on_run_step clk t pc).1.1 = set_stopped true t.
Proof. destruct pc; simpl; auto. Qed.

Lemma on_run_step_keeps_stopped (clk : Z) (t : Timer) (pc : PC) :
  _stopped t = true -> (on_run_step clk t pc).1.1 = t.
Proof.
  intros H. destruct (on_run_step_object clk t pc) as [E|E]; rewrite E; auto.
  destruct t; simpl in *; subst; reflexivity.
Qed.

(** The callable entered is the one the object holds at that moment. *)
Lemma on_run_step_entered (clk : Z) (t : Timer) (pc : PC) (f : Function) :
  (on_run_step clk t pc).2 = Some f ->
  f = _function t /\ at_invoke pc = true.
Proof. destruct pc; simpl; intros H; inversion H; auto. Qed.

(** With the flag set, no statement leads to the call. *)
Lemma on_run_step_stopped_no_invoke (clk : Z) (t : Timer) (pc : PC) :
  _stopped t = true -> at_invoke pc = false ->
  at_invoke (on_run_step clk t pc).1.2 = false
  /\ (on_run_step clk t pc).2 = None.
Proof.
  intros Hs Hpc; destruct pc; simpl in *; try discriminate;
    rewrite ?Hs; repeat case_match; auto.
Qed.

Lemma stopped_preserved (a : Action) (s : System) :
  no_start a = true -> _stopped (timer s) = true ->
  _stopped (timer (step a s)) = true.
Proof.
  intros Ha Hs; destruct a; simpl in *; try discriminate; auto.
  unfold run_thread. destruct (threads (env s) !! i) as [pc|]; auto.
  pose proof (on_run_step_keeps_stopped (now (env s)) (timer s) pc Hs) as E.
  destruct (on_run_step _ _ _) as [[t1 pc1] entered]; simpl in *; subst; auto.
Qed.

(** [run_alone] and [solo] agree. *)
Lemma run_alone_solo (fuel i : nat) (s : System) (pc : PC) :
  threads (env s) !! i = Some pc ->
  run_alone fuel i s =
    let r := solo fuel i (now (env s)) (timer s) pc (log (env s)) in
    mkSystem r.1.1.1 (mkEnv (<[i := r.1.1.2]> (threads (env s))) r.1.2 r.2).
Proof.
  revert s pc; induction fuel as [|k IH]; intros s pc Hpc.
  - simpl. rewrite list_insert_id by exact Hpc. destruct s as [t []]; reflexivity.
  - assert (Hlt : (i < length (threads (env s)))%nat) by (eapply lookup_lt_Some; eauto).
    assert (Hstep : forall s1 clk1,
               threads (env s1) = threads (env s) -> now (env s1) = clk1 ->
               timer s1 = timer s -> log (env s1) = log (env s) ->
               run_alone k i (run_thread i s1) =
               let '(t1, pc1, entered) := on_run_step clk1 (timer s) pc in
               let r := solo k i clk1 t1 pc1
                          (match entered with
                           | Some f => mkCall i clk1 f :: log (env s)
                           | None => log (env s)
                           end) in
               mkSystem r.1.1.1
                 (mkEnv (<[i := r.1.1.2]> (threads (env s))) r.1.2 r.2)).
    { intros s1 clk1 Ht Hn Hti Hl.
      rewrite (run_thread_at i s1 pc) by (rewrite Ht; exact Hpc).
      rewrite Ht, Hn, Hti, Hl.
      destruct (on_run_step clk1 (timer s) pc) as [[t1 pc1] entered] eqn:E.
      simpl.
      erewrite IH by (simpl; apply list_lookup_insert_eq; exact Hlt).
      simpl. rewrite list_insert_insert_eq. reflexivity. }
    simpl run_alone. rewrite Hpc.
    destruct pc; cbn iota;
      first [ rewrite (Hstep s _ eq_refl eq_refl eq_refl eq_refl)
            | rewrite (Hstep (elapse _ s) _ eq_refl eq_refl eq_refl eq_refl)
            | idtac ];
      simpl; try reflexivity.
    rewrite list_insert_id by exact Hpc. destruct s as [t []]; reflexivity.
Qed.


(** ** The constructor and the lifecycle methods *)

(** With no thread and no call of [start()], nothing ever happens. *)
Lemma inert_step (a : Action) (s : System) :
  no_start a = true ->
  threads (env s) = [] /\ log (env s) = [] ->
  threads (env (step a s)) = [] /\ log (env (step a s)) = [].
Proof.
  intros Ha [Ht Hl]. destruct a as [| |b|f|j|d]; simpl in Ha; try discriminate; auto.
  simpl. rewrite run_thread_absent; auto. rewrite Ht. reflexivity.
Qed.

(** C5.  [Timer(callback, delay, single_shot = true)] builds a stopped
    Timer holding exactly the given callback, delay and mode, the mode
    being [true] when the argument is omitted; nothing outside the object
    changes: no thread is spawned, the clock and the log are untouched.
    Built in a process without threads the Timer is inert: whatever
    happens, as long as [start()] is not called there is no thread and no
    call. *)
Theorem Timer_new_stopped_and_inert
    (f : Function) (d : Z) (b : bool) (e : Env) (sched : list Action) :
  forallb no_start sched = true ->
  timer (Timer_new f d (Some b) e) = mkTimer true b d f
  /\ timer (Timer_new f d None e) = mkTimer true true d f
  /\ fst (stopped (Timer_new f d (Some b) e)) = true
  /\ fst (stopped (Timer_new f d None e)) = true
  /\ env (Timer_new f d (Some b) e) = e
  /\ env (Timer_new f d None e) = e
  /\ threads (env (Timer_new f d (Some b) e)) = threads e
  /\ threads (env (Timer_new f d None e)) = threads e
  /\ threads (env (exec sched (Timer_new f d (Some b) idle_env))) = []
  /\ log (env (exec sched (Timer_new f d (Some b) idle_env))) = [].
Proof.
  intros Hsched.
  assert (Hinert : threads (env (exec sched (Timer_new f d (Some b) idle_env))) = []
                   /\ log (env (exec sched (Timer_new f d (Some b) idle_env))) = []).
  { apply (exec_invariant
             (fun s => threads (env s) = [] /\ log (env s) = []) no_start); auto.
    intros a s; apply inert_step. }
  destruct Hinert as [H1 H2]. repeat apply conj; auto.
Qed.

(** C9.  [running()] is true exactly when [stopped()] is false, and
    neither accessor changes the system. *)
Theorem running_iff_not_stopped (s : System) :
  fst (running s) = negb (fst (stopped s))
  /\ (fst (running s) = true <-> fst (stopped s) = false)
  /\ snd (running s) = s
  /\ snd (stopped s) = s.
Proof.
  unfold running, stopped; simpl.
  repeat split; destruct (_stopped (timer s)); simpl; congruence.
Qed.

(** C4.  [stop()] always sets the flag, returns the Timer, leaves mode,
    delay, callback and everything outside the object alone, and on a
    Timer that is already stopped (never started, or stopped before) it
    changes nothing at all. *)
Theorem stop_sets_flag_only (s : System) :
  _stopped (timer (snd (stop s))) = true
  /\ fst (stopped (snd (stop s))) = true
  /\ fst (stop s) = timer (snd (stop s))
  /\ _is_single_shot (timer (snd (stop s))) = _is_single_shot (timer s)
  /\ _ms_delay (timer (snd (stop s))) = _ms_delay (timer s)
  /\ _function (timer (snd (stop s))) = _function (timer s)
  /\ env (snd (stop s)) = env s
  /\ (_stopped (timer s) = true -> snd (stop s) = s)
  /\ snd (stop (snd (stop s))) = snd (stop s).
Proof.
  destruct s as [[st m d f] e]; simpl.
  repeat split. intros ->. reflexivity.
Qed.

(** C3.  On a stopped Timer [start()] clears the flag and spawns exactly one
    thread, at the entry of the lambda selected by the mode; on a running
    Timer it changes nothing; either way it returns the Timer, the Timer is
    running afterwards, and a second [start()] in succession is a no-op. *)
Theorem start_idempotent_activation (s : System) :
  (_stopped (timer s) = true ->
     snd (start s) =
       mkSystem (set_stopped false (timer s))
         (mkEnv (threads (env s) ++
                   [if _is_single_shot (timer s) then SS_Check1 else R_While])
                (now (env s)) (log (env s))))
  /\ (_stopped (timer s) = false -> snd (start s) = s)
  /\ fst (start s) = timer (snd (start s))
  /\ fst (running (snd (start s))) = true
  /\ snd (start (snd (start s))) = snd (start s)
  /\ fst (running (snd (start (snd (start s))))) = true.
Proof.
  destruct s as [[st m d f] e]; unfold start, on_run, running, stopped, spawn; simpl.
  destruct st, m; simpl; repeat split; intros; congruence.
Qed.

(** ** The single-shot loop *)

Lemma wake_reached (clk wake : Z) :
  (wake <=? clk + Z.max 0 (wake - clk)) = true.
Proof. apply Z.leb_le; lia. Qed.

Lemma wake_time (clk d : Z) :
  clk + Z.max 0 (sleep_for clk d - clk) = sleep_for clk d.
Proof. unfold sleep_for; lia. Qed.

Lemma spawned_thread (s : System) :
  _stopped (timer s) = true ->
  threads (env (snd (start s))) !! length (threads (env s)) =
    Some (if _is_single_shot (timer s) then SS_Check1 else R_While).
Proof.
  intros Hs; unfold start, on_run; rewrite Hs; simpl.
  destruct (_is_single_shot (timer s)); simpl; apply list_lookup_middle; reflexivity.
Qed.

Lemma single_shot_progress_start (s : System) :
  _stopped (timer s) = true -> _is_single_shot (timer s) = true ->
  single_shot_progress (length (threads (env s))) (snd (start s)) (snd (start s)).
Proof.
  intros Hs Hm. pose proof (spawned_thread s Hs) as Hpc. rewrite Hm in Hpc.
  unfold single_shot_progress. repeat split; try lia.
  exists SS_Check1; split; [exact Hpc|].
  unfold start, on_run; rewrite Hs; simpl; rewrite Hm; simpl; auto.
Qed.

Lemma single_shot_progress_step (i : nat) (s0 s : System) (a : Action) :
  mode_writes_only i a = true ->
  single_shot_progress i s0 s -> single_shot_progress i s0 (step a s).
Proof.
  intros Ha (Hf & Hd & Hn & pc & Hpc & Hcase).
  destruct a as [| |b|f|j|d]; simpl in Ha; try discriminate.
  - (* the mode is assigned *)
    unfold single_shot_progress; simpl. repeat split; auto.
    exists pc; split; auto.
  - (* the loop executes a statement *)
    apply Nat.eqb_eq in Ha; subst j.
    assert (Hlt : (i < length (threads (env s)))%nat) by (eapply lookup_lt_Some; eauto).
    simpl. rewrite (run_thread_at i s pc Hpc).
    unfold single_shot_progress.
    destruct pc; try contradiction; simpl in *;
      (split; [exact Hf|]); (split; [exact Hd|]); (split; [exact Hn|]);
      eexists; (split; [apply list_lookup_insert_eq; exact Hlt|]).
    + destruct Hcase as [-> ->]; auto.
    + destruct Hcase as [-> ->]. rewrite Hd. unfold sleep_for.
      repeat split; auto; lia.
    + destruct Hcase as (-> & -> & Hw).
      destruct (Z.leb_spec wake (now (env s))); repeat split; auto; lia.
    + destruct Hcase as (-> & -> & Hw); auto.
    + destruct Hcase as (-> & -> & Hw). rewrite Hf. split; eauto.
    + destruct Hcase as (-> & Hfired); auto.
    + destruct Hcase as (_ & Hfired); auto.
    + exact Hcase.
  - (* time passes *)
    unfold single_shot_progress; simpl. repeat split; auto; try lia.
    exists pc; split; auto.
    destruct pc; try contradiction; intuition lia.
Qed.

Lemma single_shot_progress_exec (i : nat) (s0 : System) (sched : list Action) :
  forallb (mode_writes_only i) sched = true ->
  single_shot_progress i s0 s0 -> single_shot_progress i s0 (exec sched s0).
Proof.
  intros Hok H0.
  apply (exec_invariant (single_shot_progress i s0) (mode_writes_only i)); auto.
  intros a s; apply single_shot_progress_step.
Qed.

(** What [single_shot_progress] says about the log and the flag. *)
Lemma single_shot_progress_outcome (i : nat) (s0 s : System) :
  single_shot_progress i s0 s ->
  (log (env s) = log (env s0)
   \/ exists tm, log (env s) = mkCall i tm (_function (timer s0)) :: log (env s0)
                 /\ now (env s0) + Z.max 0 (_ms_delay (timer s0)) <= tm)
  /\ (threads (env s) !! i = Some Done ->
      _stopped (timer s) = true
      /\ exists tm, log (env s) = mkCall i tm (_function (timer s0)) :: log (env s0)
                 /\ now (env s0) + Z.max 0 (_ms_delay (timer s0)) <= tm).
Proof.
  intros (Hf & Hd & Hn & pc & Hpc & Hcase). split.
  - destruct pc; try contradiction; intuition auto.
  - intros HD. rewrite HD in Hpc. inversion Hpc; subst pc. exact Hcase.
Qed.

Lemma solo_S (k i : nat) (clk : Z) (t : Timer) (pc : PC) (l : list Call) :
  pc <> Done ->
  solo (S k) i clk t pc l =
    let clk1 :=
      match pc with
      | SS_Sleeping wake | R_Sleeping wake => clk + Z.max 0 (wake - clk)
      | _ => clk
      end in
    solo k i clk1 (on_run_step clk1 t pc).1.1 (on_run_step clk1 t pc).1.2
      (match (on_run_step clk1 t pc).2 with
       | Some f => mkCall i clk1 f :: l
       | None => l
       end).
Proof. intros H; destruct pc; try congruence; reflexivity. Qed.

Lemma solo_Done (k i : nat) (clk : Z) (t : Timer) (l : list Call) :
  solo k i clk t Done l = (t, Done, clk, l).
Proof. destruct k; reflexivity. Qed.

(** One statement of [solo] at a known control point. *)
Ltac solo_step :=
  rewrite solo_S by discriminate;
  cbn -[solo Z.max Z.leb Z.add Z.sub sleep_for];
  rewrite ?wake_reached, ?wake_time.

(** The single-shot lambda left alone, statement by statement. *)
Lemma solo_single_shot (i : nat) (clk : Z) (t : Timer) (l : list Call) :
  _stopped t = false ->
  let due := sleep_for clk (_ms_delay t) in
  let c := mkCall i due (_function t) in
  solo 1 i clk t SS_Check1 l = (t, SS_Sleep, clk, l)
  /\ solo 2 i clk t SS_Check1 l = (t, SS_Sleeping due, clk, l)
  /\ solo 3 i clk t SS_Check1 l = (t, SS_Check2, due, l)
  /\ solo 4 i clk t SS_Check1 l = (t, SS_Invoke, due, l)
  /\ solo 5 i clk t SS_Check1 l = (t, SS_InCall, due, c :: l)
  /\ solo 6 i clk t SS_Check1 l = (t, SS_SetStopped, due, c :: l)
  /\ solo 7 i clk t SS_Check1 l = (set_stopped true t, Done, due, c :: l).
Proof.
  intros Hs due c. subst due c.
  repeat apply conj; repeat (solo_step; rewrite ?Hs); reflexivity.
Qed.

(** [run_alone] on a freshly started single-shot Timer. *)
Lemma run_alone_started_single_shot (k : nat) (s : System) :
  _stopped (timer s) = true -> _is_single_shot (timer s) = true ->
  run_alone k (length (threads (env s))) (snd (start s)) =
    let r := solo k (length (threads (env s))) (now (env s))
               (set_stopped false (timer s)) SS_Check1 (log (env s)) in
    mkSystem r.1.1.1
      (mkEnv (<[length (threads (env s)) := r.1.1.2]>
                (threads (env s) ++ [SS_Check1])) r.1.2 r.2).
Proof.
  intros Hs Hm. pose proof (spawned_thread s Hs) as Hpc. rewrite Hm in Hpc.
  rewrite (run_alone_solo k _ _ SS_Check1 Hpc).
  unfold start, on_run; rewrite Hs; simpl; rewrite Hm; reflexivity.
Qed.

Lemma lookup_spawned (l : list PC) (pc pc1 : PC) :
  <[length l := pc1]> (l ++ [pc]) !! length l = Some pc1.
Proof. apply list_lookup_insert_eq. rewrite length_app; simpl; lia. Qed.

(** C1.  A stopped Timer in single-shot mode is started; [i] is the thread
    that [start()] spawns.  Left alone, the thread goes through: the first
    check, [sleep_for(_ms_delay)], the wake-up, the second check, the entry
    of the callback, its return, [_stopped = true], and the exit; either
    check exits at once when the flag is set.  In every execution in which
    nobody but this thread acts (and time passes), the callback is entered
    at most once, never earlier than [_ms_delay] after the start, and when
    the thread has run to its end the callback has been entered exactly
    once and [stopped()] is true. *)
Theorem single_shot_fires_once (s : System) (sched : list Action) :
  _stopped (timer s) = true ->
  _is_single_shot (timer s) = true ->
  forallb (undisturbed (length (threads (env s)))) sched = true ->
  let i := length (threads (env s)) in
  let f := _function (timer s) in
  let due := now (env s) + Z.max 0 (_ms_delay (timer s)) in
  let s1 := snd (start s) in
  let at_pc k := threads (env (run_alone k i s1)) !! i in
  (at_pc 0%nat = Some SS_Check1
   /\ at_pc 1%nat = Some SS_Sleep
   /\ at_pc 2%nat = Some (SS_Sleeping due)
   /\ at_pc 3%nat = Some SS_Check2
   /\ at_pc 4%nat = Some SS_Invoke
   /\ at_pc 5%nat = Some SS_InCall
   /\ at_pc 6%nat = Some SS_SetStopped
   /\ at_pc 7%nat = Some Done)
  /\ (now (env (run_alone 2 i s1)) = now (env s)
      /\ now (env (run_alone 3 i s1)) = due
      /\ log (env (run_alone 4 i s1)) = log (env s)
      /\ log (env (run_alone 5 i s1)) = mkCall i due f :: log (env s)
      /\ _stopped (timer (run_alone 6 i s1)) = false
      /\ _stopped (timer (run_alone 7 i s1)) = true
      /\ fst (stopped (run_alone 7 i s1)) = true
      /\ log (env (run_alone 7 i s1)) = mkCall i due f :: log (env s))
  /\ (forall clk t, _stopped t = true ->
        on_run_step clk t SS_Check1 = (t, Done, None)
        /\ on_run_step clk t SS_Check2 = (t, Done, None))
  /\ (log (env (exec sched s1)) = log (env s)
      \/ exists tm, log (env (exec sched s1)) = mkCall i tm f :: log (env s)
                    /\ due <= tm)
  /\ (threads (env (exec sched s1)) !! i = Some Done ->
      fst (stopped (exec sched s1)) = true
      /\ exists tm, log (env (exec sched s1)) = mkCall i tm f :: log (env s)
                    /\ due <= tm).
Proof.
  intros Hs Hm Hsched i f due s1 at_pc.
  assert (Hfresh : _stopped (set_stopped false (timer s)) = false) by reflexivity.
  pose proof (solo_single_shot i (now (env s)) (set_stopped false (timer s))
                (log (env s)) Hfresh) as (E1 & E2 & E3 & E4 & E5 & E6 & E7).
  assert (Hrun := fun k => run_alone_started_single_shot k s Hs Hm).
  fold i in Hrun. fold s1 in Hrun.
  split; [|split; [|split]].
  - unfold at_pc. rewrite !Hrun. rewrite E1, E2, E3, E4, E5, E6, E7.
    cbn -[Z.max Z.add sleep_for lookup insert]. unfold i.
    rewrite !lookup_spawned. repeat apply conj; reflexivity.
  - rewrite !Hrun. rewrite E2, E3, E4, E5, E6, E7.
    repeat apply conj; reflexivity.
  - intros clk t Ht; simpl; rewrite Ht; auto.
  - assert (Hinv : single_shot_progress i s1 (exec sched s1)).
    { apply single_shot_progress_exec.
      - eapply forallb_weaken; [|exact Hsched].
        intros [] Ha; simpl in Ha |- *;
          first [discriminate | exact Ha | reflexivity].
      - apply single_shot_progress_start; assumption. }
    apply single_shot_progress_outcome in Hinv.
    assert (Hl : log (env s1) = log (env s)).
    { unfold s1, start, on_run; rewrite Hs; simpl; rewrite Hm; reflexivity. }
    assert (Ht : _function (timer s1) = f /\ _ms_delay (timer s1) = _ms_delay (timer s)
                 /\ now (env s1) = now (env s)).
    { unfold s1, start, on_run; rewrite Hs; simpl; rewrite Hm; auto. }
    destruct Ht as (Hf1 & Hd1 & Hn1).
    rewrite Hl, Hf1, Hd1, Hn1 in Hinv. exact Hinv.
Qed.

(** C10.  The single-shot lambda never reads the mode: each of its
    statements does the same whatever the mode is.  So on a Timer started
    in single-shot mode, assigning the mode afterwards (here to [m], at
    once, or at any points of a schedule) does not change the loop: it
    enters the callback at most once, and having run to its end it has
    entered it exactly once and has set the flag.  The repeating lambda,
    in contrast, reads the mode at the head of its [while]. *)
Theorem single_shot_loop_ignores_mode
    (s : System) (sched : list Action) (m : bool) :
  _stopped (timer s) = true ->
  _is_single_shot (timer s) = true ->
  forallb (mode_writes_only (length (threads (env s)))) sched = true ->
  let i := length (threads (env s)) in
  let f := _function (timer s) in
  let due := now (env s) + Z.max 0 (_ms_delay (timer s)) in
  let s1 := snd (start s) in
  let s2 := run_alone 7 i (snd (assign_is_single_shot m s1)) in
  (forall clk t pc b, in_single_shot pc = true ->
     on_run_step clk (set_is_single_shot b t) pc =
       (set_is_single_shot b (on_run_step clk t pc).1.1,
        (on_run_step clk t pc).1.2,
        (on_run_step clk t pc).2))
  /\ (threads (env s2) !! i = Some Done
      /\ log (env s2) = mkCall i due f :: log (env s)
      /\ fst (stopped s2) = true
      /\ fst (is_single_shot s2) = m)
  /\ (log (env (exec sched s1)) = log (env s)
      \/ exists tm, log (env (exec sched s1)) = mkCall i tm f :: log (env s)
                    /\ due <= tm)
  /\ (threads (env (exec sched s1)) !! i = Some Done ->
      fst (stopped (exec sched s1)) = true
      /\ exists tm, log (env (exec sched s1)) = mkCall i tm f :: log (env s)
                    /\ due <= tm)
  /\ (forall clk t,
        (on_run_step clk (set_is_single_shot true t) R_While).1.2 = R_SetStopped
        /\ (on_run_step clk (set_is_single_shot false t) R_While).1.2 = R_Check1).
Proof.
  intros Hs Hm Hsched i f due s1 s2.
  pose proof (spawned_thread s Hs) as Hpc. rewrite Hm in Hpc.
  assert (Hs1 : s1 = mkSystem (set_stopped false (timer s))
                       (mkEnv (threads (env s) ++ [SS_Check1])
                              (now (env s)) (log (env s)))).
  { unfold s1, start, on_run; rewrite Hs; simpl; rewrite Hm; reflexivity. }
  split; [|split; [|split; [|split]]].
  - intros clk t pc b Hpcb. destruct pc; try discriminate; reflexivity.
  - assert (Hq : _stopped (set_is_single_shot m (set_stopped false (timer s))) = false)
      by reflexivity.
    pose proof (solo_single_shot i (now (env s))
                  (set_is_single_shot m (set_stopped false (timer s)))
                  (log (env s)) Hq) as (_ & _ & _ & _ & _ & _ & E7).
    unfold s2. rewrite (run_alone_solo 7 i _ SS_Check1) by exact Hpc.
    rewrite Hs1. cbn -[solo Z.max Z.add sleep_for lookup insert].
    rewrite E7. cbn -[Z.max Z.add sleep_for lookup insert]. unfold i.
    rewrite lookup_spawned. repeat apply conj; reflexivity.
  - assert (Hinv : single_shot_progress i s1 (exec sched s1)).
    { apply single_shot_progress_exec; [exact Hsched|].
      apply single_shot_progress_start; assumption. }
    apply single_shot_progress_outcome in Hinv.
    set (s3 := exec sched s1) in *.
    rewrite Hs1 in Hinv. simpl in Hinv. apply Hinv.
  - assert (Hinv : single_shot_progress i s1 (exec sched s1)).
    { apply single_shot_progress_exec; [exact Hsched|].
      apply single_shot_progress_start; assumption. }
    apply single_shot_progress_outcome in Hinv.
    set (s3 := exec sched s1) in *.
    rewrite Hs1 in Hinv. simpl in Hinv. apply Hinv.
  - simpl; auto.
Qed.

(** ** The repeating loop *)

Lemma calls_of_cons_same (i : nat) (tm : Z) (f : Function) (l : list Call) :
  calls_of i (mkCall i tm f :: l) = mkCall i tm f :: calls_of i l.
Proof. unfold calls_of. rewrite filter_cons_True; auto. Qed.

Lemma calls_of_cons_other (i j : nat) (tm : Z) (f : Function) (l : list Call) :
  j <> i -> calls_of i (mkCall j tm f :: l) = calls_of i l.
Proof. intros H. unfold calls_of. rewrite filter_cons_False; auto. Qed.

(** One tick of the running loop: seven statements lead from the head of
    the [while] back to it, with one call entered at the wake-up time. *)
Lemma solo_tick (k i : nat) (clk : Z) (t : Timer) (l : list Call) :
  _stopped t = false -> _is_single_shot t = false ->
  solo (7 + k) i clk t R_While l =
    solo k i (sleep_for clk (_ms_delay t)) t R_While
      (mkCall i (sleep_for clk (_ms_delay t)) (_function t) :: l).
Proof.
  intros Hs Hm. change (7 + k)%nat with (S (S (S (S (S (S (S k))))))).
  do 7 (solo_step; rewrite ?Hs, ?Hm; cbn -[solo Z.max Z.leb Z.add Z.sub sleep_for]).
  reflexivity.
Qed.

Lemma solo_ticks (n i : nat) (clk : Z) (t : Timer) (l : list Call) :
  _stopped t = false -> _is_single_shot t = false ->
  exists new,
    solo (n * 7) i clk t R_While l =
      (t, R_While, clk + Z.of_nat n * Z.max 0 (_ms_delay t), new ++ l)
    /\ length new = n
    /\ Forall (fun c => call_thread c = i /\ call_fn c = _function t) new.
Proof.
  intros Hs Hm. revert clk l; induction n as [|n IH]; intros clk l.
  - exists []. repeat apply conj; auto.
    replace (clk + Z.of_nat 0 * Z.max 0 (_ms_delay t)) with clk by lia.
    reflexivity.
  - change (S n * 7)%nat with (7 + n * 7)%nat. rewrite solo_tick by assumption.
    destruct (IH (sleep_for clk (_ms_delay t))
                 (mkCall i (sleep_for clk (_ms_delay t)) (_function t) :: l))
      as (new & E & Hlen & Hall).
    exists (new ++ [mkCall i (sleep_for clk (_ms_delay t)) (_function t)]).
    rewrite E. repeat apply conj.
    + rewrite <- app_assoc.
      replace (sleep_for clk (_ms_delay t) + Z.of_nat n * Z.max 0 (_ms_delay t))
        with (clk + Z.of_nat (S n) * Z.max 0 (_ms_delay t))
        by (unfold sleep_for; lia).
      reflexivity.
    + rewrite length_app; simpl; lia.
    + apply Forall_app; split; auto.
Qed.

(** A statement of the repeating lambda while the mode is single-shot. *)
Lemma on_run_step_downgraded (clk : Z) (t : Timer) (pc : PC) :
  _is_single_shot t = true -> in_repeating_loop pc = true ->
  _is_single_shot (on_run_step clk t pc).1.1 = true
  /\ (in_repeating_loop (on_run_step clk t pc).1.2 = true
      \/ (on_run_step clk t pc).1.2 = Done)
  /\ ((on_run_step clk t pc).1.2 = Done ->
      _stopped (on_run_step clk t pc).1.1 = true)
  /\ match (on_run_step clk t pc).2 with
     | Some _ => calls_left pc = 1%nat
                 /\ calls_left (on_run_step clk t pc).1.2 = 0%nat
     | None => (calls_left (on_run_step clk t pc).1.2 <= calls_left pc)%nat
     end.
Proof.
  intros Hm Hpc.
  destruct pc; try discriminate; simpl; rewrite ?Hm; simpl;
    try destruct (_stopped t) eqn:Hs; try destruct (wake <=? clk);
    simpl; repeat apply conj; auto; intros; congruence.
Qed.

Lemma downgraded_step (i : nat) (l0 : list Call) (a : Action) (s : System) :
  no_start_no_repeat a = true -> downgraded i l0 s -> downgraded i l0 (step a s).
Proof.
  intros Ha (Hm & pc & new & Hpc & Hloop & Hlog & Hcount & Hdone).
  destruct a as [| |b|f|j|d]; simpl in Ha; try discriminate.
  - (* stop() *)
    split; [exact Hm|]. exists pc, new; simpl; auto 10.
  - (* the mode is assigned [true] *)
    destruct b; try discriminate.
    split; [reflexivity|]. exists pc, new; simpl; auto 10.
  - (* the callback is assigned *)
    split; [exact Hm|]. exists pc, new; simpl; auto 10.
  - (* a thread executes a statement *)
    simpl. destruct (decide (j = i)) as [->|Hne].
    + assert (Hlt : (i < length (threads (env s)))%nat) by (eapply lookup_lt_Some; eauto).
      rewrite (run_thread_at i s pc Hpc).
      destruct Hloop as [Hloop| ->].
      * destruct (on_run_step_downgraded (now (env s)) (timer s) pc Hm Hloop)
          as (Hm1 & Hloop1 & Hdone1 & Hcalls).
        split; [exact Hm1|].
        exists (on_run_step (now (env s)) (timer s) pc).1.2.
        destruct ((on_run_step (now (env s)) (timer s) pc).2) as [f|].
        -- exists (mkCall i (now (env s)) f :: new); simpl.
           rewrite list_lookup_insert_eq by exact Hlt.
           rewrite calls_of_cons_same, Hlog. destruct Hcalls as [Hc0 Hc1].
           repeat apply conj; auto. simpl. lia.
        -- exists new; simpl.
           rewrite list_lookup_insert_eq by exact Hlt.
           repeat apply conj; auto. lia.
      * split; [exact Hm|]. exists Done, new; simpl.
        split; [apply list_lookup_insert_eq; exact Hlt|]. auto.
    + unfold run_thread. destruct (threads (env s) !! j) as [pcj|] eqn:Hj.
      * pose proof (on_run_step_object (now (env s)) (timer s) pcj) as Ht.
        destruct (on_run_step _ _ pcj) as [[t1 pc1] entered]; simpl in *.
        assert (Hm1 : _is_single_shot t1 = true).
        { destruct Ht as [->| ->]; auto. }
        assert (Hs1 : _stopped (timer s) = true -> _stopped t1 = true).
        { destruct Ht as [->| ->]; auto. }
        split; [exact Hm1|].
        exists pc. destruct entered as [f|].
        -- exists (mkCall j (now (env s)) f :: new); simpl.
           rewrite list_lookup_insert_ne by exact Hne.
           rewrite calls_of_cons_other by exact Hne.
           rewrite Hlog; auto 10.
        -- exists new; simpl.
           rewrite list_lookup_insert_ne by exact Hne. auto 10.
      * split; [exact Hm|]. exists pc, new; auto 10.
  - (* time passes *)
    split; [exact Hm|]. exists pc, new; simpl; auto 10.
Qed.

Lemma downgraded_exec (i : nat) (l0 : list Call) (sched : list Action) (s : System) :
  forallb no_start_no_repeat sched = true ->
  downgraded i l0 s -> downgraded i l0 (exec sched s).
Proof.
  intros Hok H0.
  apply (exec_invariant (downgraded i l0) no_start_no_repeat); auto.
  intros a s'; apply downgraded_step.
Qed.

(** Left alone with the mode single-shot, the repeating lambda returns
    within eight statements, from wherever it is, entering the callback at
    most once more. *)
Lemma solo_downgraded (i : nat) (clk : Z) (t : Timer) (pc : PC) (l : list Call) :
  _is_single_shot t = true -> in_repeating_loop pc = true ->
  exists t1 clk1 new,
    solo 8 i clk t pc l = (t1, Done, clk1, new ++ l)
    /\ _stopped t1 = true
    /\ (length new <= 1)%nat
    /\ Forall (fun c => call_thread c = i /\ call_fn c = _function t) new.
Proof.
  intros Hm Hpc. destruct t as [st m d f]; simpl in Hm; subst m.
  destruct pc; try discriminate; destruct st;
    repeat first
      [ rewrite solo_Done
      | solo_step; cbn -[solo Z.max Z.leb Z.add Z.sub sleep_for] ];
    first
      [ eexists _, _, []; repeat apply conj;
        [reflexivity | reflexivity | simpl; lia | constructor]
      | eexists _, _, [_]; repeat apply conj;
        [reflexivity | reflexivity | simpl; lia | repeat constructor] ].
Qed.

(** The components of [run_alone], read off [solo]. *)
Lemma run_alone_view (k i : nat) (s : System) (pc : PC) :
  threads (env s) !! i = Some pc ->
  threads (env (run_alone k i s)) !! i =
    Some (solo k i (now (env s)) (timer s) pc (log (env s))).1.1.2
  /\ timer (run_alone k i s) =
       (solo k i (now (env s)) (timer s) pc (log (env s))).1.1.1
  /\ now (env (run_alone k i s)) =
       (solo k i (now (env s)) (timer s) pc (log (env s))).1.2
  /\ log (env (run_alone k i s)) =
       (solo k i (now (env s)) (timer s) pc (log (env s))).2.
Proof.
  intros Hpc. rewrite (run_alone_solo k i s pc Hpc).
  cbn -[solo lookup insert]. repeat apply conj; try reflexivity.
  apply list_lookup_insert_eq. eapply lookup_lt_Some; eauto.
Qed.

(** The repeating lambda left alone while the Timer runs in repeating
    mode, statement by statement through one tick. *)
Lemma solo_repeating (i : nat) (clk : Z) (t : Timer) (l : list Call) :
  _stopped t = false -> _is_single_shot t = false ->
  let due := sleep_for clk (_ms_delay t) in
  let c := mkCall i due (_function t) in
  solo 1 i clk t R_While l = (t, R_Check1, clk, l)
  /\ solo 2 i clk t R_While l = (t, R_Sleep, clk, l)
  /\ solo 3 i clk t R_While l = (t, R_Sleeping due, clk, l)
  /\ solo 4 i clk t R_While l = (t, R_Check2, due, l)
  /\ solo 5 i clk t R_While l = (t, R_Invoke, due, l)
  /\ solo 6 i clk t R_While l = (t, R_InCall, due, c :: l)
  /\ solo 7 i clk t R_While l = (t, R_While, due, c :: l).
Proof.
  intros Hs Hm due c. subst due c.
  repeat apply conj;
    repeat (solo_step; rewrite ?Hs, ?Hm; cbn -[solo Z.max Z.leb Z.add Z.sub sleep_for]);
    reflexivity.
Qed.

(** C2.  Thread [i] is inside the repeating lambda.  While the Timer runs
    in repeating mode the loop, left alone, goes round: the test of the
    mode, the first check, [sleep_for(_ms_delay)], the wake-up, the second
    check, the entry of the callback, its return, and the test again, so
    [n] rounds enter the callback [n] times; either check exits when the
    flag is set; leaving the [while] because the mode is single-shot sets
    the flag.  Once the mode of the running loop has been assigned
    single-shot ([s1]), the loop returns within eight statements, and in
    every execution without [start()] and without a new assignment of the
    repeating mode it enters the callback at most once more and [stopped()]
    is true when it has returned. *)
Theorem repeating_loop_mode_downgrade
    (s : System) (i : nat) (pc : PC) (sched : list Action) :
  threads (env s) !! i = Some pc ->
  in_repeating_loop pc = true ->
  forallb no_start_no_repeat sched = true ->
  let s1 := snd (assign_is_single_shot true s) in
  (forall s0 n,
     threads (env s0) !! i = Some R_While ->
     _stopped (timer s0) = false -> _is_single_shot (timer s0) = false ->
     threads (env (run_alone (n * 7) i s0)) !! i = Some R_While
     /\ timer (run_alone (n * 7) i s0) = timer s0
     /\ now (env (run_alone (n * 7) i s0)) =
          now (env s0) + Z.of_nat n * Z.max 0 (_ms_delay (timer s0))
     /\ exists new,
          log (env (run_alone (n * 7) i s0)) = new ++ log (env s0)
          /\ length new = n
          /\ Forall (fun c => call_thread c = i
                              /\ call_fn c = _function (timer s0)) new)
  /\ (forall s0,
        threads (env s0) !! i = Some R_While ->
        _stopped (timer s0) = false -> _is_single_shot (timer s0) = false ->
        let due := sleep_for (now (env s0)) (_ms_delay (timer s0)) in
        let at_pc k := threads (env (run_alone k i s0)) !! i in
        at_pc 1%nat = Some R_Check1
        /\ at_pc 2%nat = Some R_Sleep
        /\ at_pc 3%nat = Some (R_Sleeping due)
        /\ at_pc 4%nat = Some R_Check2
        /\ at_pc 5%nat = Some R_Invoke
        /\ at_pc 6%nat = Some R_InCall
        /\ at_pc 7%nat = Some R_While
        /\ log (env (run_alone 5 i s0)) = log (env s0)
        /\ log (env (run_alone 6 i s0)) =
             mkCall i due (_function (timer s0)) :: log (env s0))
  /\ (forall clk t, _stopped t = true ->
        on_run_step clk t R_Check1 = (t, Done, None)
        /\ on_run_step clk t R_Check2 = (t, Done, None))
  /\ (forall s0,
        threads (env s0) !! i = Some R_While ->
        _is_single_shot (timer s0) = true ->
        threads (env (run_alone 1 i s0)) !! i = Some R_SetStopped
        /\ threads (env (run_alone 2 i s0)) !! i = Some Done
        /\ fst (stopped (run_alone 2 i s0)) = true
        /\ log (env (run_alone 2 i s0)) = log (env s0))
  /\ (threads (env (run_alone 8 i s1)) !! i = Some Done
      /\ fst (stopped (run_alone 8 i s1)) = true
      /\ exists new, log (env (run_alone 8 i s1)) = new ++ log (env s)
                     /\ (length new <= 1)%nat)
  /\ (exists new, log (env (exec sched s1)) = new ++ log (env s)
                  /\ (length (calls_of i new) <= 1)%nat)
  /\ (threads (env (exec sched s1)) !! i = Some Done ->
      fst (stopped (exec sched s1)) = true).
Proof.
  intros Hpc Hloop Hsched s1.
  assert (Hinv : downgraded i (log (env s)) (exec sched s1)).
  { apply downgraded_exec; [exact Hsched|].
    split; [reflexivity|]. exists pc, []; simpl.
    repeat apply conj; auto.
    - destruct pc; simpl; lia.
    - intros ->; discriminate. }
  split; [|split; [|split; [|split; [|split; [|split]]]]].
  - intros s0 n H0 Hs Hm.
    destruct (run_alone_view (n * 7) i s0 R_While H0) as (E1 & E2 & E3 & E4).
    destruct (solo_ticks n i (now (env s0)) (timer s0) (log (env s0)) Hs Hm)
      as (new & E & Hlen & Hall).
    rewrite E in E1, E2, E3, E4. cbn [fst snd] in E1, E2, E3, E4.
    repeat apply conj; auto. exists new; auto.
  - intros s0 H0 Hs Hm due at_pc.
    destruct (solo_repeating i (now (env s0)) (timer s0) (log (env s0)) Hs Hm)
      as (S1 & S2 & S3 & S4 & S5 & S6 & S7).
    unfold at_pc.
    repeat apply conj;
      match goal with
      | |- context [run_alone ?k i s0] =>
          destruct (run_alone_view k i s0 R_While H0) as (E1 & E2 & E3 & E4)
      end;
      rewrite ?E1, ?E4, ?S1, ?S2, ?S3, ?S4, ?S5, ?S6, ?S7; reflexivity.
  - intros clk t Ht; simpl; rewrite Ht; auto.
  - intros s0 H0 Hm.
    destruct (run_alone_view 1 i s0 R_While H0) as (A1 & _).
    destruct (run_alone_view 2 i s0 R_While H0) as (E1 & E2 & E3 & E4).
    unfold stopped; cbn [fst].
    rewrite A1, E1, E2, E4.
    repeat (solo_step; rewrite ?Hm; cbn -[solo Z.max Z.leb Z.add Z.sub sleep_for]).
    repeat apply conj; reflexivity.
  - assert (H1 : threads (env s1) !! i = Some pc) by exact Hpc.
    destruct (run_alone_view 8 i s1 pc H1) as (E1 & E2 & E3 & E4).
    destruct (solo_downgraded i (now (env s1)) (timer s1) pc (log (env s1))
                eq_refl Hloop) as (t1 & clk1 & new & E & Hst & Hlen & _).
    rewrite E in E1, E2, E3, E4. cbn [fst snd] in E1, E2, E3, E4.
    unfold stopped; cbn [fst]. rewrite E1, E2, E4.
    repeat apply conj; auto. exists new; auto.
  - destruct Hinv as (_ & pc' & new & _ & _ & Hlog & Hcount & _).
    exists new; split; auto. lia.
  - intros HD. destruct Hinv as (_ & pc' & new & Hpc' & _ & _ & _ & Hdone).
    apply Hdone. congruence.
Qed.

(** ** Replacing the callback *)

Lemma calls_new_callback_step (g : Function) (l0 : list Call)
    (a : Action) (s : System) :
  no_set_function a = true ->
  calls_new_callback g l0 s -> calls_new_callback g l0 (step a s).
Proof.
  intros Ha (Hg & new & Hlog & Hall).
  destruct a as [| |b|f|j|d]; simpl in Ha; try discriminate; simpl.
  - (* start() *)
    unfold start, on_run.
    destruct (_stopped (timer s)); [destruct (_is_single_shot _)|]; simpl;
      (split; [exact Hg|]); exists new; auto.
  - split; [exact Hg|]; exists new; auto.
  - split; [exact Hg|]; exists new; auto.
  - (* a thread executes a statement *)
    unfold run_thread. destruct (threads (env s) !! j) as [pc|].
    + pose proof (on_run_step_object (now (env s)) (timer s) pc) as Ht.
      pose proof (on_run_step_entered (now (env s)) (timer s) pc) as He.
      destruct (on_run_step _ _ pc) as [[t1 pc1] entered]; simpl in *.
      split; [destruct Ht as [->| ->]; exact Hg|].
      destruct entered as [f|].
      * destruct (He f eq_refl) as [-> _].
        exists (mkCall j (now (env s)) (_function (timer s)) :: new); simpl.
        rewrite Hlog; split; auto.
      * exists new; auto.
    + split; [exact Hg|]; exists new; auto.
  - split; [exact Hg|]; exists new; auto.
Qed.

(** The next call of a running repeating loop, left alone: whatever
    statement it is at, it enters the callable the object holds. *)
Lemma solo_next_call (i : nat) (clk : Z) (t : Timer) (pc : PC) (l : list Call) :
  _stopped t = false -> _is_single_shot t = false ->
  in_repeating_loop pc = true -> pc <> R_SetStopped ->
  exists n tm, (n <= 7)%nat
    /\ (solo n i clk t pc l).2 = mkCall i tm (_function t) :: l.
Proof.
  intros Hs Hm Hpc Hne.
  destruct pc; try discriminate; try congruence;
    [ exists 6%nat | exists 5%nat | exists 4%nat | exists 3%nat
    | exists 2%nat | exists 1%nat | exists 7%nat ];
    eexists; (split; [lia|]);
    repeat (solo_step; rewrite ?Hs, ?Hm; cbn -[solo Z.max Z.leb Z.add Z.sub sleep_for]);
    reflexivity.
Qed.

(** A tick in flight reaches its call within the round, with the object
    untouched. *)
Lemma solo_in_flight_call (i : nat) (clk : Z) (t : Timer) (pc : PC)
    (l : list Call) :
  _stopped t = false -> tick_in_flight pc = true ->
  exists n tm, (n <= 5)%nat
    /\ solo n i clk t pc l = (t, R_InCall, tm, mkCall i tm (_function t) :: l).
Proof.
  intros Hs Hpc.
  destruct pc; try discriminate;
    [ exists 5%nat | exists 4%nat | exists 3%nat | exists 2%nat | exists 1%nat ];
    eexists; (split; [lia|]);
    repeat (solo_step; rewrite ?Hs; cbn -[solo Z.max Z.leb Z.add Z.sub sleep_for]);
    reflexivity.
Qed.

(** C6 (as amended).  The callback of a running repeating Timer is
    replaced by [g] while loop [i] is anywhere in its [while].  The call
    reads [_function] when it is entered.  So when a tick is in flight and
    its call is not entered yet (the loop is at a check or in the sleep),
    this very tick calls [g]: the loop, left alone, enters [g] within the
    round; in any case the next call the loop enters is a call of [g]; and
    in every execution that does not assign the callback again, all calls
    entered after the assignment are calls of [g], the calls entered
    before it remaining as they are. *)
Theorem callback_replacement_takes_effect_at_next_call
    (s : System) (i : nat) (pc : PC) (g : Function) (sched : list Action) :
  threads (env s) !! i = Some pc ->
  in_repeating_loop pc = true -> pc <> R_SetStopped ->
  _stopped (timer s) = false -> _is_single_shot (timer s) = false ->
  forallb no_set_function sched = true ->
  let s1 := snd (assign_function g s) in
  (forall s0, threads (env s0) !! i = Some R_Invoke ->
     log (env (run_thread i s0)) =
       mkCall i (now (env s0)) (_function (timer s0)) :: log (env s0))
  /\ (tick_in_flight pc = true ->
      exists n tm, (n <= 5)%nat
        /\ log (env (run_alone n i s1)) = mkCall i tm g :: log (env s)
        /\ threads (env (run_alone n i s1)) !! i = Some R_InCall)
  /\ (exists n tm, (n <= 7)%nat
        /\ log (env (run_alone n i s1)) = mkCall i tm g :: log (env s))
  /\ (exists new, log (env (exec sched s1)) = new ++ log (env s)
                  /\ Forall (fun c => call_fn c = g) new).
Proof.
  intros Hpc Hloop Hne Hs Hm Hsched s1.
  split; [|split; [|split]].
  - intros s0 H0. rewrite (run_thread_at i s0 R_Invoke H0). reflexivity.
  - intros Hfl.
    destruct (solo_in_flight_call i (now (env s1)) (timer s1) pc (log (env s1)))
      as (n & tm & Hn & E); auto.
    exists n, tm. split; [exact Hn|].
    assert (H1 : threads (env s1) !! i = Some pc) by exact Hpc.
    destruct (run_alone_view n i s1 pc H1) as (E1 & _ & _ & E4).
    rewrite E1, E4, E. split; reflexivity.
  - destruct (solo_next_call i (now (env s1)) (timer s1) pc (log (env s1)))
      as (n & tm & Hn & E); auto.
    exists n, tm. split; [exact Hn|].
    destruct (run_alone_view n i s1 pc Hpc) as (_ & _ & _ & E4).
    rewrite E4, E. reflexivity.
  - assert (Hinv : calls_new_callback g (log (env s)) (exec sched s1)).
    { apply (exec_invariant (calls_new_callback g (log (env s))) no_set_function);
        auto.
      - intros a s'; apply calls_new_callback_step.
      - split; [reflexivity|]. exists []; auto. }
    destruct Hinv as (_ & new & Hlog & Hall). exists new; auto.
Qed.

(** ** After [stop()] *)

Lemma calls_of_app (i : nat) (l1 l2 : list Call) :
  calls_of i (l1 ++ l2) = calls_of i l1 ++ calls_of i l2.
Proof. unfold calls_of. apply filter_app. Qed.


Lemma at_invoke_busy (pc : PC) : at_invoke pc = true -> busy pc = true.
Proof. destruct pc; simpl; congruence. Qed.

Lemma after_stop_prompt_exec (T : Z) (l0 : list Call) (sched : list Action) :
  forall s,
    forallb no_start sched = true -> prompt sched s = true ->
    after_stop_prompt T l0 s -> after_stop_prompt T l0 (exec sched s).
Proof.
  induction sched as [|a rest IH]; intros s Hok Hprompt Hinv; [exact Hinv|].
  simpl in Hok, Hprompt.
  apply andb_prop in Hok as [Ha Hrest].
  apply andb_prop in Hprompt as [Hnow Hlater].
  apply IH; auto. clear IH Hrest Hlater.
  destruct Hinv as (Hs & Hclock & new & Hlog & Hall).
  destruct a as [| |b|f|j|d]; simpl in Ha; try discriminate; simpl;
    try (split; [exact Hs|]; split; [exact Hclock|]; exists new; auto; fail).
  - split; [reflexivity|]; split; [exact Hclock|]; exists new; auto.
  - (* a thread executes a statement *)
    destruct (threads (env s) !! j) as [pc|] eqn:Hpc;
      [|rewrite run_thread_absent by exact Hpc;
        split; [exact Hs|]; split; [exact Hclock|]; exists new; auto].
    assert (Hlt : (j < length (threads (env s)))%nat) by (eapply lookup_lt_Some; eauto).
    rewrite (run_thread_at j s pc Hpc).
    rewrite (on_run_step_keeps_stopped _ _ pc Hs).
    split; [exact Hs|].
    destruct (at_invoke pc) eqn:Hinv.
    + destruct Hclock as [Hnow'|Hnone]; [|rewrite (Hnone j pc Hpc) in Hinv; discriminate].
      split; [left; exact Hnow'|].
      destruct ((on_run_step (now (env s)) (timer s) pc).2) as [f|].
      * exists (mkCall j (now (env s)) f :: new); simpl.
        rewrite Hlog; split; auto.
      * exists new; auto.
    + destruct (on_run_step_stopped_no_invoke (now (env s)) (timer s) pc Hs Hinv)
        as [E2 E1].
      rewrite E1. split; [|exists new; auto].
      destruct Hclock as [Hnow'|Hnone]; [left; exact Hnow'|right].
      intros i pc1; simpl. destruct (decide (i = j)) as [->|Hne].
      * rewrite list_lookup_insert_eq by exact Hlt. intros E; inversion E; subst; auto.
      * rewrite list_lookup_insert_ne by congruence. apply Hnone.
  - (* time passes: no thread is between its second check and the call *)
    split; [exact Hs|]. split; [|exists new; auto].
    right. intros i pc Hpc. simpl in Hpc.
    rewrite forallb_forall in Hnow.
    assert (Hin : In pc (threads (env s))).
    { apply list_elem_of_In. eapply list_elem_of_lookup_2; eauto. }
    specialize (Hnow pc Hin).
    destruct (at_invoke pc) eqn:E; auto.
    apply at_invoke_busy in E. rewrite E in Hnow. discriminate.
Qed.



(** Under the idealisation that the statements of the loops take no time
    (a prompt schedule), every call entered after [stop()] is entered at
    the time of the stop. *)
Lemma calls_after_stop_in_prompt_schedules (s : System) (sched : list Action) :
  forallb no_start sched = true ->
  prompt sched (snd (stop s)) = true ->
  exists new,
    log (env (exec sched (snd (stop s)))) = new ++ log (env s)
    /\ Forall (fun c => call_time c = now (env s)) new.
Proof.
  intros Hsched Hprompt.
  assert (Hp : after_stop_prompt (now (env s)) (log (env s))
                 (exec sched (snd (stop s)))).
  { apply after_stop_prompt_exec; auto.
    split; [reflexivity|]. split; [left; reflexivity|]. exists []; auto. }
  destruct Hp as (_ & _ & new & Hlog & Hall). exists new; auto.
Qed.

(** ** The caller and the loop on the same field

    Nothing orders a statement of the loop and a call or assignment of the
    caller that touch the same field, and the two orders differ: the check
    against [stop()], the test of the [while] against an assignment of the
    mode, the call against an assignment of the callback. *)
Lemma caller_and_loop_do_not_commute (s : System) (i : nat) (g : Function) :
  (threads (env s) !! i = Some R_Check2 -> _stopped (timer s) = false ->
     threads (env (exec [Stop; Run i] s)) !! i = Some Done
     /\ threads (env (exec [Run i; Stop] s)) !! i = Some R_Invoke)
  /\ (threads (env s) !! i = Some R_While -> _is_single_shot (timer s) = false ->
     threads (env (exec [SetSingleShot true; Run i] s)) !! i = Some R_SetStopped
     /\ threads (env (exec [Run i; SetSingleShot true] s)) !! i = Some R_Check1)
  /\ (threads (env s) !! i = Some R_Invoke ->
     log (env (exec [SetFunction g; Run i] s)) =
       mkCall i (now (env s)) g :: log (env s)
     /\ log (env (exec [Run i; SetFunction g] s)) =
       mkCall i (now (env s)) (_function (timer s)) :: log (env s)).
Proof.
  repeat apply conj.
  - intros Hpc Hs. cbn [exec step].
    rewrite (run_thread_at i s R_Check2 Hpc).
    rewrite (run_thread_at i (snd (stop s)) R_Check2 Hpc).
    simpl. rewrite Hs.
    split; apply list_lookup_insert_eq; eapply lookup_lt_Some; eauto.
  - intros Hpc Hm. cbn [exec step].
    rewrite (run_thread_at i s R_While Hpc).
    rewrite (run_thread_at i (snd (assign_is_single_shot true s)) R_While Hpc).
    simpl. rewrite Hm.
    split; apply list_lookup_insert_eq; eapply lookup_lt_Some; eauto.
  - intros Hpc. cbn [exec step].
    rewrite (run_thread_at i s R_Invoke Hpc).
    rewrite (run_thread_at i (snd (assign_function g s)) R_Invoke Hpc).
    split; reflexivity.
Qed.

(** * Further properties of the class *)

(** ** What an execution can and cannot change *)

Lemma exec_invariant_all (I : System -> Prop) :
  (forall a s, I s -> I (step a s)) ->
  forall sched s, I s -> I (exec sched s).
Proof.
  intros Hstep sched; induction sched as [|a rest IH]; intros s Hs; simpl; auto.
Qed.

Lemma step_frame (a : Action) (s : System) :
  _ms_delay (timer (step a s)) = _ms_delay (timer s)
  /\ (no_set_mode a = true ->
      _is_single_shot (timer (step a s)) = _is_single_shot (timer s))
  /\ (no_set_function a = true ->
      _function (timer (step a s)) = _function (timer s)).
Proof.
  destruct a as [| |b|f|j|d]; simpl.
  - unfold start, on_run; simpl.
    destruct (_stopped (timer s));
      [destruct (_is_single_shot (timer s)) eqn:E|];
      repeat apply conj; intros; simpl; rewrite ?E; reflexivity.
  - repeat apply conj; reflexivity.
  - repeat apply conj; auto; discriminate.
  - repeat apply conj; auto; discriminate.
  - unfold run_thread. destruct (threads (env s) !! j) as [pc|];
      [|repeat apply conj; reflexivity].
    pose proof (on_run_step_object (now (env s)) (timer s) pc) as Ht.
    destruct (on_run_step _ _ pc) as [[t1 pc1] entered]; simpl in *.
    destruct Ht as [->| ->]; repeat apply conj; reflexivity.
  - repeat apply conj; reflexivity.
Qed.

(** X1.  Whatever happens, the delay of a Timer never changes; its mode
    changes only by an assignment through [is_single_shot()], its callback
    only by an assignment through [function()]: the loops write no field
    but [_stopped].  And nothing but [start()] clears the flag: without a
    call of [start()] a stopped Timer stays stopped. *)
Theorem loops_write_only_the_flag (sched : list Action) (s : System) :
  _ms_delay (timer (exec sched s)) = _ms_delay (timer s)
  /\ (forallb no_set_mode sched = true ->
      _is_single_shot (timer (exec sched s)) = _is_single_shot (timer s))
  /\ (forallb no_set_function sched = true ->
      _function (timer (exec sched s)) = _function (timer s))
  /\ (forallb no_start sched = true -> _stopped (timer s) = true ->
      _stopped (timer (exec sched s)) = true).
Proof.
  revert s; induction sched as [|a rest IH]; intros s; simpl.
  - repeat apply conj; auto.
  - destruct (IH (step a s)) as (Hd & Hm & Hf & Hs).
    destruct (step_frame a s) as (Hd1 & Hm1 & Hf1).
    repeat apply conj.
    + congruence.
    + intros H; apply andb_prop in H as [Ha Hr]. rewrite (Hm Hr). auto.
    + intros H; apply andb_prop in H as [Ha Hr]. rewrite (Hf Hr). auto.
    + intros H Hst; apply andb_prop in H as [Ha Hr].
      apply (Hs Hr). apply stopped_preserved; assumption.
Qed.

Lemma step_threads (a : Action) (s : System) :
  (length (threads (env s)) <= length (threads (env (step a s))))%nat
  /\ (length (threads (env (step a s)))
      <= length (threads (env s)) + count_starts [a])%nat
  /\ (forall i, threads (env s) !! i = Some Done ->
                threads (env (step a s)) !! i = Some Done).
Proof.
  destruct a as [| |b|f|j|d]; simpl; try (repeat apply conj; auto; lia).
  - unfold start, on_run.
    destruct (_stopped (timer s)); [destruct (_is_single_shot _)|]; simpl;
      rewrite ?length_app; simpl; repeat apply conj; auto; try lia;
      intros i Hi; apply lookup_app_l_Some; exact Hi.
  - unfold run_thread. destruct (threads (env s) !! j) as [pc|] eqn:Hpc;
      [|repeat apply conj; auto; lia].
    destruct (on_run_step _ _ pc) as [[t1 pc1] entered] eqn:E; simpl.
    rewrite length_insert. repeat apply conj; try lia.
    intros i Hi. destruct (decide (j = i)) as [->|Hne].
    + rewrite Hi in Hpc. inversion Hpc; subst pc. simpl in E. inversion E; subst.
      rewrite list_lookup_insert_eq; auto. eapply lookup_lt_Some; eauto.
    + rewrite list_lookup_insert_ne; auto.
Qed.

Lemma count_starts_cons (a : Action) (rest : list Action) :
  count_starts (a :: rest) = (count_starts [a] + count_starts rest)%nat.
Proof. destruct a; reflexivity. Qed.

(** X2.  Threads are spawned by [start()] only, at most one per call: in
    every execution the thread list never shrinks and grows by no more
    than the number of calls of [start()]; and a loop that has returned
    stays returned, a later [start()] spawns a new thread instead. *)
Theorem threads_spawned_only_by_start (sched : list Action) (s : System) :
  (length (threads (env s)) <= length (threads (env (exec sched s))))%nat
  /\ (length (threads (env (exec sched s)))
      <= length (threads (env s)) + count_starts sched)%nat
  /\ (forall i, threads (env s) !! i = Some Done ->
                threads (env (exec sched s)) !! i = Some Done).
Proof.
  revert s; induction sched as [|a rest IH]; intros s.
  - simpl. repeat apply conj; auto; lia.
  - destruct (IH (step a s)) as (H1 & H2 & H3).
    destruct (step_threads a s) as (S1 & S2 & S3).
    rewrite count_starts_cons. simpl exec.
    repeat apply conj; try lia. intros i Hi. apply H3, S3, Hi.
Qed.

(** ** A running Timer has a loop *)

Lemma on_run_step_stays_live (clk : Z) (t : Timer) (pc : PC) :
  pc <> Done -> _stopped (on_run_step clk t pc).1.1 = false ->
  (on_run_step clk t pc).1.2 <> Done.
Proof.
  intros Hpc. destruct pc; simpl; try congruence;
    try (destruct (_stopped t); congruence);
    try (destruct (wake <=? clk); congruence);
    try (destruct (_is_single_shot t); simpl; congruence).
Qed.

Lemma live_loop_step (a : Action) (s : System) :
  (_stopped (timer s) = false -> has_live_loop s) ->
  _stopped (timer (step a s)) = false -> has_live_loop (step a s).
Proof.
  intros Hinv. destruct a as [| |b|f|j|d]; simpl; try discriminate; auto.
  - (* start() *)
    unfold start, on_run. destruct (_stopped (timer s)) eqn:Hs.
    + intros _. exists (length (threads (env s))).
      destruct (_is_single_shot _); simpl; eexists;
        (split; [apply list_lookup_middle; reflexivity|discriminate]).
    + simpl. intros _. apply Hinv. reflexivity.
  - (* a thread executes a statement *)
    unfold run_thread. destruct (threads (env s) !! j) as [pcj|] eqn:Hj; auto.
    pose proof (on_run_step_object (now (env s)) (timer s) pcj) as Ht.
    pose proof (on_run_step_stays_live (now (env s)) (timer s) pcj) as Hlive.
    destruct (on_run_step _ _ pcj) as [[t1 pc1] entered]; simpl in *.
    intros Hs1.
    assert (Hs : _stopped (timer s) = false).
    { destruct Ht as [->| ->]; [exact Hs1|discriminate]. }
    destruct (Hinv Hs) as (i & pc & Hpc & Hne).
    destruct (decide (j = i)) as [->|Hji].
    + exists i, pc1. simpl. split.
      * apply list_lookup_insert_eq. eapply lookup_lt_Some; eauto.
      * apply Hlive; congruence.
    + exists i, pc. simpl. rewrite list_lookup_insert_ne by exact Hji. auto.
Qed.

(** X3.  As long as every thread creation in [start()] succeeds: in every
    execution from a state in which a running Timer has a live loop (so
    from a freshly built Timer), a Timer that reports [running()] has a
    thread that has not returned, the flag being cleared only together
    with a spawn and a loop returning only with the flag set.  When the
    creation of the thread fails, this breaks: the flag has been cleared
    before, and a Timer without loop reports [running()]. *)
Theorem running_has_live_loop (sched : list Action) (s : System) :
  (_stopped (timer s) = false -> has_live_loop s) ->
  (fst (running (exec sched s)) = true -> has_live_loop (exec sched s))
  /\ (forall s0, _stopped (timer s0) = true -> threads (env s0) = [] ->
        fst (running (start_spawn_fails s0)) = true
        /\ ~ has_live_loop (start_spawn_fails s0)).
Proof.
  intros H0. split.
  - intros Hrun.
    assert (Hinv : _stopped (timer (exec sched s)) = false
                   -> has_live_loop (exec sched s)).
    { apply (exec_invariant_all
               (fun s' => _stopped (timer s') = false -> has_live_loop s')); auto.
      intros a s'; apply live_loop_step. }
    apply Hinv. unfold running, stopped in Hrun. simpl in Hrun.
    destruct (_stopped (timer (exec sched s))); [discriminate|reflexivity].
  - intros s0 Hs0 Hth. unfold start_spawn_fails; rewrite Hs0.
    split; [reflexivity|].
    intros (i & pc & Hpc & _). simpl in Hpc. rewrite Hth in Hpc. discriminate.
Qed.

(** ** A repeating loop does not return by itself *)



(** ** The pace of a loop *)

Lemma call_times_cons_same (i : nat) (tm : Z) (f : Function) (l : list Call) :
  call_times i (mkCall i tm f :: l) = tm :: call_times i l.
Proof. unfold call_times. rewrite calls_of_cons_same. reflexivity. Qed.

Lemma call_times_cons_other (i j : nat) (tm : Z) (f : Function) (l : list Call) :
  j <> i -> call_times i (mkCall j tm f :: l) = call_times i l.
Proof. intros H. unfold call_times. rewrite calls_of_cons_other; auto. Qed.

Lemma spaced_next (d T0 t : Z) (ts : list Z) :
  spaced d ts -> hd T0 ts + d <= t -> spaced d (t :: ts).
Proof. intros Hsp Hdue. destruct ts; simpl in *; auto. Qed.

Lemma bounded_next (d T0 t : Z) (ts : list Z) :
  Forall (fun tm => T0 + Z.max 0 d <= tm) ts -> hd T0 ts + Z.max 0 d <= t ->
  Forall (fun tm => T0 + Z.max 0 d <= tm) (t :: ts).
Proof.
  intros Hall Hdue. constructor; auto.
  destruct ts as [|t2 ts]; simpl in *; [exact Hdue|].
  inversion Hall; subst. lia.
Qed.

Lemma paced_step (i : nat) (s0 : System) (a : Action) (s : System) :
  paced i s0 s -> paced i s0 (step a s).
Proof.
  unfold paced; cbv zeta.
  intros (Hd & new & pc & Hlog & Hpc & Hsp & Hall & Hlast & Hcond).
  destruct a as [| |b|f|j|d]; simpl.
  - (* start() *)
    unfold start, on_run; simpl.
    destruct (_stopped (timer s)); [destruct (_is_single_shot (timer s))|];
      simpl; (split; [exact Hd|]); exists new, pc;
      repeat apply conj; auto; apply lookup_app_l_Some; exact Hpc.
  - split; [exact Hd|]. exists new, pc; repeat apply conj; auto.
  - split; [exact Hd|]. exists new, pc; repeat apply conj; auto.
  - split; [exact Hd|]. exists new, pc; repeat apply conj; auto.
  - (* a thread executes a statement *)
    destruct (decide (j = i)) as [->|Hne].
    + assert (Hlt : (i < length (threads (env s)))%nat) by (eapply lookup_lt_Some; eauto).
      rewrite (run_thread_at i s pc Hpc).
      destruct (at_invoke pc) eqn:Hinv.
      * (* the call is entered *)
        destruct pc; try discriminate; simpl in *;
          (split; [exact Hd|]);
          exists (mkCall i (now (env s)) (_function (timer s)) :: new);
          eexists; rewrite list_lookup_insert_eq by exact Hlt;
          rewrite call_times_cons_same, Hlog;
          repeat apply conj; auto;
          first [ exact I
                | eapply bounded_next; eassumption
                | simpl; lia
                | destruct (call_times i new); simpl in *;
                  first [exact I | assumption] ].
      * (* any other statement *)
        assert (E : (on_run_step (now (env s)) (timer s) pc).2 = None
                    /\ _ms_delay (on_run_step (now (env s)) (timer s) pc).1.1
                       = _ms_delay (timer s)).
        { destruct pc; try discriminate; simpl; auto. }
        destruct E as (E & Hd1). simpl. rewrite E, Hd1.
        split; [exact Hd|].
        exists new. eexists. rewrite list_lookup_insert_eq by exact Hlt.
        repeat apply conj; auto.
        destruct pc; try discriminate; simpl in *; try exact I;
          try (destruct (_stopped (timer s)); simpl; auto; fail);
          try (destruct (negb (_is_single_shot (timer s))); simpl; auto; fail);
          try (rewrite Hd; unfold sleep_for; lia);
          destruct (Z.leb_spec wake (now (env s))); simpl; lia.
    + unfold run_thread. destruct (threads (env s) !! j) as [pcj|] eqn:Hj.
      * pose proof (on_run_step_object (now (env s)) (timer s) pcj) as Ht.
        destruct (on_run_step _ _ pcj) as [[t1 pc1] entered]; simpl in *.
        split; [destruct Ht as [->| ->]; exact Hd|].
        destruct entered as [f|].
        -- exists (mkCall j (now (env s)) f :: new), pc.
           rewrite call_times_cons_other by exact Hne.
           rewrite list_lookup_insert_ne by exact Hne.
           rewrite Hlog. repeat apply conj; auto.
        -- exists new, pc.
           rewrite list_lookup_insert_ne by exact Hne.
           repeat apply conj; auto.
      * split; [exact Hd|]. exists new, pc; repeat apply conj; auto.
  - (* time passes *)
    split; [exact Hd|]. exists new, pc; repeat apply conj; auto; try lia.
    destruct pc; auto; lia.
Qed.

(** X5.  A Timer is started and thread [i] is the loop spawned.  Whatever
    happens afterwards (calls of [stop()] and [start()], assignments,
    other loops), this loop never enters the callback earlier than
    [_ms_delay] after the start, and never twice within [_ms_delay]: a
    [sleep_for(_ms_delay)] lies before its first call and between any two
    of its calls. *)
Theorem calls_of_a_loop_are_paced (s : System) (sched : list Action) :
  _stopped (timer s) = true ->
  let i := length (threads (env s)) in
  let d := Z.max 0 (_ms_delay (timer s)) in
  exists new,
    log (env (exec sched (snd (start s)))) = new ++ log (env s)
    /\ spaced d (call_times i new)
    /\ Forall (fun tm => now (env s) + d <= tm) (call_times i new).
Proof.
  intros Hs i d.
  assert (Hinv : paced i (snd (start s)) (exec sched (snd (start s)))).
  { apply (exec_invariant_all (paced i (snd (start s)))).
    - intros a s'; apply paced_step.
    - pose proof (spawned_thread s Hs) as Hpc.
      unfold paced; cbv zeta. split; [reflexivity|].
      exists [], (if _is_single_shot (timer s) then SS_Check1 else R_While).
      repeat apply conj; auto; simpl; try lia.
      destruct (_is_single_shot (timer s)); exact I. }
  assert (Hs1 : _ms_delay (timer (snd (start s))) = _ms_delay (timer s)
                /\ now (env (snd (start s))) = now (env s)
                /\ log (env (snd (start s))) = log (env s)).
  { unfold start, on_run; rewrite Hs; simpl.
    destruct (_is_single_shot (timer s)); auto. }
  destruct Hs1 as (E1 & E2 & E3).
  unfold paced in Hinv; cbv zeta in Hinv. rewrite E1, E2, E3 in Hinv.
  destruct Hinv as (_ & new & pc & Hlog & _ & Hsp & Hall & _).
  exists new; auto.
Qed.

(** ** [stop()] followed by [start()] *)

(** A running repeating loop, left alone, reaches its next call with the
    object untouched. *)
Lemma solo_to_call (i : nat) (clk : Z) (t : Timer) (pc : PC) (l : list Call) :
  _stopped t = false -> _is_single_shot t = false ->
  in_repeating_loop pc = true -> pc <> R_SetStopped ->
  exists n tm, (n <= 7)%nat
    /\ solo n i clk t pc l = (t, R_InCall, tm, mkCall i tm (_function t) :: l).
Proof.
  intros Hs Hm Hpc Hne.
  destruct pc; try discriminate; try congruence;
    [ exists 6%nat | exists 5%nat | exists 4%nat | exists 3%nat
    | exists 2%nat | exists 1%nat | exists 7%nat ];
    eexists; (split; [lia|]);
    repeat (solo_step; rewrite ?Hs, ?Hm; cbn -[solo Z.max Z.leb Z.add Z.sub sleep_for]);
    reflexivity.
Qed.

(** X6.  [stop()] does not end a loop, it only sets the flag the loop will
    read; a [start()] that follows before the loop has read it clears the
    flag again and spawns a second loop.  From then on both loops run:
    each, left to run, enters the callback, and neither has returned. *)
Theorem restart_leaves_two_loops (s : System) (i : nat) (pc : PC) :
  threads (env s) !! i = Some pc ->
  in_repeating_loop pc = true -> pc <> R_SetStopped ->
  _stopped (timer s) = false -> _is_single_shot (timer s) = false ->
  let j := length (threads (env s)) in
  let f := _function (timer s) in
  let s2 := exec [Stop; Start] s in
  threads (env s2) = threads (env s) ++ [R_While]
  /\ fst (running s2) = true
  /\ exists n m tm1 tm2,
       log (env (run_alone m j (run_alone n i s2))) =
         mkCall j tm2 f :: mkCall i tm1 f :: log (env s)
       /\ threads (env (run_alone m j (run_alone n i s2))) !! i = Some R_InCall
       /\ threads (env (run_alone m j (run_alone n i s2))) !! j = Some R_InCall
       /\ fst (running (run_alone m j (run_alone n i s2))) = true.
Proof.
  intros Hpc Hloop Hne Hs Hm j f s2.
  assert (Hlt : (i < j)%nat) by (eapply lookup_lt_Some; eauto).
  assert (Hs2 : s2 = mkSystem (timer s)
                       (mkEnv (threads (env s) ++ [R_While])
                              (now (env s)) (log (env s)))).
  { unfold s2; simpl. unfold start, on_run; simpl. rewrite Hm.
    destruct s as [[st md d g] e]; simpl in *; subst; reflexivity. }
  split; [rewrite Hs2; reflexivity|].
  split; [rewrite Hs2; unfold running, stopped; simpl; rewrite Hs; reflexivity|].
  assert (Hpc2 : threads (env s2) !! i = Some pc).
  { rewrite Hs2; simpl. apply lookup_app_l_Some; exact Hpc. }
  assert (Ht2 : timer s2 = timer s) by (rewrite Hs2; reflexivity).
  destruct (solo_to_call i (now (env s2)) (timer s2) pc (log (env s2)))
    as (n & tm1 & _ & E1); [rewrite Ht2; exact Hs|rewrite Ht2; exact Hm|exact Hloop|exact Hne|].
  assert (Hs3 : run_alone n i s2 =
                mkSystem (timer s)
                  (mkEnv (<[i := R_InCall]> (threads (env s) ++ [R_While]))
                         tm1 (mkCall i tm1 f :: log (env s)))).
  { rewrite (run_alone_solo n i s2 pc Hpc2). rewrite E1. rewrite Hs2. reflexivity. }
  assert (Hpc3 : threads (env (run_alone n i s2)) !! j = Some R_While).
  { rewrite Hs3; simpl. rewrite list_lookup_insert_ne by lia.
    apply list_lookup_middle; reflexivity. }
  destruct (solo_to_call j (now (env (run_alone n i s2))) (timer (run_alone n i s2))
              R_While (log (env (run_alone n i s2))))
    as (m & tm2 & _ & E2);
    [rewrite Hs3; exact Hs|rewrite Hs3; exact Hm|reflexivity|discriminate|].
  exists n, m, tm1, tm2.
  rewrite (run_alone_solo m j _ R_While Hpc3). rewrite E2.
  rewrite Hs3. cbn -[lookup insert].
  unfold running, stopped; cbn -[lookup insert]. rewrite Hs.
  repeat apply conj; auto.
  - rewrite list_lookup_insert_ne by lia.
    apply list_lookup_insert_eq. rewrite length_app; simpl; lia.
  - apply list_lookup_insert_eq. rewrite length_insert, length_app; simpl.
    fold j. lia.
Qed.

(** ** [stop()] after the second check *)

(** X7.  The bound of one further call after [stop()] is reached: a loop
    that has passed the check after its sleep when [stop()] is called
    still enters the callback, once, at once; then it returns, within four
    statements, and the Timer is stopped. *)
Theorem late_stop_fires_once_more (s : System) (i : nat) (pc : PC) :
  threads (env s) !! i = Some pc ->
  at_invoke pc = true ->
  let s2 := run_alone 4 i (snd (stop s)) in
  threads (env s2) !! i = Some Done
  /\ log (env s2) = mkCall i (now (env s)) (_function (timer s)) :: log (env s)
  /\ now (env s2) = now (env s)
  /\ fst (stopped s2) = true.
Proof.
  intros Hpc Hinv s2.
  assert (H1 : threads (env (snd (stop s))) !! i = Some pc) by exact Hpc.
  destruct (run_alone_view 4 i (snd (stop s)) pc H1) as (E1 & E2 & E3 & E4).
  unfold stopped; cbn [fst]. unfold s2. rewrite E1, E2, E3, E4.
  clear E1 E2 E3 E4 H1 Hpc s2.
  destruct s as [[st md d g] [ths nw lg]]; cbn -[solo].
  destruct pc; try discriminate; destruct md;
    repeat first
      [ rewrite solo_Done
      | solo_step; cbn -[solo Z.max Z.leb Z.add Z.sub sleep_for] ];
    repeat apply conj; reflexivity.
Qed.

(** ** The mode assigned while the loop runs: how many calls follow *)

(** X8.  The mode of a running repeating loop is assigned single-shot and
    the loop is left alone for eight statements.  Whether it enters the
    callback once more depends on where it is: at the test of the [while],
    inside the callback or past the [while] it enters no further call (so a
    Timer started in repeating mode and switched before the loop's first
    statement never fires); between the first check and the call it enters
    exactly one, unless the flag is set and the second check is still
    ahead. *)
Theorem downgrade_fires_once_or_never (s : System) (i : nat) (pc : PC) :
  threads (env s) !! i = Some pc ->
  in_repeating_loop pc = true ->
  let s2 := run_alone 8 i (snd (assign_is_single_shot true s)) in
  let f := _function (timer s) in
  (calls_left pc = 0%nat -> log (env s2) = log (env s))
  /\ (_stopped (timer s) = true -> pc <> R_Invoke -> log (env s2) = log (env s))
  /\ (pc = R_Invoke ->
      log (env s2) = mkCall i (now (env s)) f :: log (env s))
  /\ (_stopped (timer s) = false -> calls_left pc = 1%nat ->
      exists tm, now (env s) <= tm
                 /\ log (env s2) = mkCall i tm f :: log (env s)).
Proof.
  intros Hpc Hloop s2 f.
  assert (H1 : threads (env (snd (assign_is_single_shot true s))) !! i = Some pc)
    by exact Hpc.
  destruct (run_alone_view 8 i _ pc H1) as (_ & _ & _ & E4).
  unfold s2, f. rewrite E4. clear E4 H1 Hpc s2 f.
  destruct s as [[st md d g] [ths nw lg]]; cbn -[solo].
  destruct pc; try discriminate; destruct st;
    repeat first
      [ rewrite solo_Done
      | solo_step; cbn -[solo Z.max Z.leb Z.add Z.sub sleep_for] ];
    cbn [snd]; repeat apply conj; intros; try discriminate; try congruence;
    eexists; (split; [|reflexivity]); unfold sleep_for; lia.
Qed.

(** ** A delay of zero *)

Lemma replicate_snoc {A} (n : nat) (x : A) (l : list A) :
  replicate n x ++ x :: l = x :: replicate n x ++ l.
Proof. induction n as [|n IH]; simpl; [reflexivity|]. rewrite IH; reflexivity. Qed.

Lemma solo_ticks_instant (n i : nat) (clk : Z) (t : Timer) (l : list Call) :
  _stopped t = false -> _is_single_shot t = false -> _ms_delay t <= 0 ->
  solo (n * 7) i clk t R_While l =
    (t, R_While, clk, replicate n (mkCall i clk (_function t)) ++ l).
Proof.
  intros Hs Hm Hd. revert l; induction n as [|n IH]; intros l; [reflexivity|].
  change (S n * 7)%nat with (7 + n * 7)%nat. rewrite solo_tick by assumption.
  replace (sleep_for clk (_ms_delay t)) with clk by (unfold sleep_for; lia).
  rewrite IH. simpl. rewrite replicate_snoc. reflexivity.
Qed.

(** X9.  With a delay of zero (or less) [sleep_for] does not block: the
    rounds of a running repeating loop follow one another without any time
    passing, [n] rounds enter the callback [n] times at the same clock
    time. *)
Theorem nonpositive_delay_fires_without_waiting (s : System) (i n : nat) :
  threads (env s) !! i = Some R_While ->
  _stopped (timer s) = false -> _is_single_shot (timer s) = false ->
  _ms_delay (timer s) <= 0 ->
  log (env (run_alone (n * 7) i s)) =
    replicate n (mkCall i (now (env s)) (_function (timer s))) ++ log (env s)
  /\ now (env (run_alone (n * 7) i s)) = now (env s)
  /\ fst (running (run_alone (n * 7) i s)) = true.
Proof.
  intros Hpc Hs Hm Hd.
  destruct (run_alone_view (n * 7) i s R_While Hpc) as (_ & E2 & E3 & E4).
  unfold running, stopped; cbn [fst snd]. rewrite E2, E3, E4.
  rewrite solo_ticks_instant by assumption. cbn [fst snd]. rewrite Hs.
  repeat apply conj; reflexivity.
Qed.

(** ** A Timer is reusable *)

Lemma insert_spawned (l : list PC) (pc pc1 : PC) :
  <[length l := pc1]> (l ++ [pc]) = l ++ [pc1].
Proof.
  rewrite insert_app_r_alt by lia. rewrite Nat.sub_diag. reflexivity.
Qed.

(** A stopped single-shot Timer is started and its loop runs to the end. *)
Lemma single_shot_round (s : System) :
  _stopped (timer s) = true -> _is_single_shot (timer s) = true ->
  run_alone 7 (length (threads (env s))) (snd (start s)) =
    mkSystem (set_stopped true (timer s))
      (mkEnv (threads (env s) ++ [Done])
             (now (env s) + Z.max 0 (_ms_delay (timer s)))
             (mkCall (length (threads (env s)))
                     (now (env s) + Z.max 0 (_ms_delay (timer s)))
                     (_function (timer s)) :: log (env s))).
Proof.
  intros Hs Hm. rewrite (run_alone_started_single_shot 7 s Hs Hm).
  destruct (solo_single_shot (length (threads (env s))) (now (env s))
              (set_stopped false (timer s)) (log (env s)) eq_refl)
    as (_ & _ & _ & _ & _ & _ & E7).
  rewrite E7. cbn -[Z.max Z.add insert]. rewrite insert_spawned.
  reflexivity.
Qed.

(** X10.  A single-shot Timer that has fired is stopped again, so it can
    be started again: the second [start()] spawns a second thread, which
    enters the callback once, one delay after the second start, and
    returns; the first thread stays returned. *)
Theorem single_shot_can_be_restarted (s : System) :
  _stopped (timer s) = true -> _is_single_shot (timer s) = true ->
  let i := length (threads (env s)) in
  let f := _function (timer s) in
  let d := Z.max 0 (_ms_delay (timer s)) in
  let s1 := run_alone 7 i (snd (start s)) in
  let s2 := run_alone 7 (S i) (snd (start s1)) in
  threads (env s1) = threads (env s) ++ [Done]
  /\ fst (stopped s1) = true
  /\ threads (env s2) = threads (env s) ++ [Done; Done]
  /\ log (env s2) =
       mkCall (S i) (now (env s) + d + d) f
         :: mkCall i (now (env s) + d) f :: log (env s)
  /\ fst (stopped s2) = true.
Proof.
  intros Hs Hm. cbv zeta.
  rewrite (single_shot_round s Hs Hm).
  match goal with
  | |- context [start ?x] => set (s1 := x)
  end.
  assert (Hlen : S (length (threads (env s))) = length (threads (env s1))).
  { unfold s1; simpl. rewrite length_app; simpl; lia. }
  rewrite Hlen.
  rewrite (single_shot_round s1) by (unfold s1; simpl; auto).
  rewrite <- Hlen. unfold s1. cbn -[Z.max Z.add].
  rewrite <- app_assoc. repeat apply conj; reflexivity.
Qed.

(** ** A failed thread creation *)

Lemma wedged_step (s0 : System) (a : Action) (s : System) :
  no_stop a = true ->
  Forall (fun pc => pc = Done) (threads (env s0)) ->
  (_stopped (timer s) = false /\ threads (env s) = threads (env s0)
   /\ log (env s) = log (env s0)) ->
  (_stopped (timer (step a s)) = false
   /\ threads (env (step a s)) = threads (env s0)
   /\ log (env (step a s)) = log (env s0)).
Proof.
  intros Ha Hdone (Hs & Hth & Hl).
  destruct a as [| |b|f|j|d]; simpl in Ha; try discriminate; simpl; auto.
  - unfold start. rewrite Hs. simpl. auto.
  - unfold run_thread. destruct (threads (env s) !! j) as [pc|] eqn:Hj; auto.
    assert (pc = Done).
    { rewrite Hth in Hj. rewrite Forall_forall in Hdone. apply Hdone.
      eapply list_elem_of_lookup_2; eauto. }
    subst pc. simpl. rewrite list_insert_id by exact Hj. auto.
Qed.

(** X11.  [start()] clears the flag before it creates the thread.  When
    the creation fails on a stopped Timer none of whose loops is alive,
    the Timer reports [running()] although it has no loop, and it stays
    so: a further [start()] does nothing, and as long as [stop()] is not
    called no thread is spawned and no call is entered, whatever else
    happens.  [stop()] followed by [start()] spawns a loop again. *)
Theorem failed_spawn_wedges_the_timer (s : System) (sched : list Action) :
  _stopped (timer s) = true ->
  Forall (fun pc => pc = Done) (threads (env s)) ->
  forallb no_stop sched = true ->
  fst (running (start_spawn_fails s)) = true
  /\ ~ has_live_loop (start_spawn_fails s)
  /\ snd (start (start_spawn_fails s)) = start_spawn_fails s
  /\ fst (running (exec sched (start_spawn_fails s))) = true
  /\ threads (env (exec sched (start_spawn_fails s))) = threads (env s)
  /\ log (env (exec sched (start_spawn_fails s))) = log (env s)
  /\ has_live_loop (exec [Stop; Start] (start_spawn_fails s)).
Proof.
  intros Hs Hdone Hsched.
  assert (Hw : start_spawn_fails s = mkSystem (set_stopped false (timer s)) (env s)).
  { unfold start_spawn_fails; rewrite Hs; reflexivity. }
  set (I := fun s' : System =>
    _stopped (timer s') = false /\ threads (env s') = threads (env s)
    /\ log (env s') = log (env s)).
  assert (Hinv : I (exec sched (start_spawn_fails s))).
  { apply (exec_invariant I no_stop); auto; unfold I.
    - intros a s' Ha HI. apply wedged_step; assumption.
    - rewrite Hw; simpl; auto. }
  destruct Hinv as (H1 & H2 & H3).
  rewrite Hw. repeat apply conj.
  - reflexivity.
  - intros (i & pc & Hpc & Hne). simpl in Hpc.
    rewrite Forall_forall in Hdone. apply Hne, Hdone.
    eapply list_elem_of_lookup_2; eauto.
  - reflexivity.
  - rewrite <- Hw. unfold running, stopped; simpl. rewrite H1. reflexivity.
  - rewrite <- Hw. exact H2.
  - rewrite <- Hw. exact H3.
  - exists (length (threads (env s))). simpl. unfold start, on_run; simpl.
    destruct (_is_single_shot (timer s)); simpl; eexists;
      (split; [apply list_lookup_middle; reflexivity|discriminate]).
Qed.

End TimerModel.

(** * Concrete runs

    The callables are named by strings, as in the example of the header
    of timer.hpp, whose two callbacks print "A" and "B". *)

(** The example of the header: a repeating Timer with a delay of 1000 ms
    is started; after 2100 ms the callback is replaced; after another
    2100 ms the calls entered are A, A, B, B. *)
Example header_example :
  let t := Timer_new "A"%string 1000 (Some false) idle_env in
  let sched :=
    [Start] ++ one_tick 0 1000 ++ one_tick 0 1000
    ++ [Run 0; Run 0; Run 0; Elapse 100; SetFunction "B"%string]
    ++ [Elapse 900; Run 0; Run 0; Run 0; Run 0] ++ one_tick 0 1000
    ++ [Run 0; Run 0; Run 0; Elapse 200] in
  map (fun c => (call_time c, call_fn c)) (rev (log (env (exec sched t))))
    = [(1000, "A"%string); (2000, "A"%string);
       (3000, "B"%string); (4000, "B"%string)]
  /\ now (env (exec sched t)) = 4200
  /\ fst (running (exec sched t)) = true.
Proof. vm_compute. repeat split. Qed.

(** A Timer built with the default mode and never started. *)
Lemma Timer_new_stopped_and_inert_witness :
  let sched := [Run 0; Elapse 100; Stop; SetFunction "B"%string; Run 0] in
  timer (Timer_new "A"%string 50 None idle_env) = mkTimer true true 50 "A"%string
  /\ log (env (exec sched (Timer_new "A"%string 50 (Some true) idle_env))) = [].
Proof.
  intros sched.
  pose proof (Timer_new_stopped_and_inert "A"%string 50 true idle_env sched eq_refl)
    as H.
  destruct H as (_ & H1 & _ & _ & _ & _ & _ & _ & _ & H2).
  split; [exact H1|exact H2].
Defined.

(** Property P4: repeating, 50 ms; 230 ms after [start()] the callback has
    been called four times and the Timer is still running. *)
Example repeating_fires_four_times :
  let t := Timer_new "A"%string 50 (Some false) idle_env in
  let sched :=
    [Start] ++ one_tick 0 50 ++ one_tick 0 50 ++ one_tick 0 50 ++ one_tick 0 50
    ++ [Run 0; Run 0; Run 0; Elapse 30] in
  map call_time (rev (log (env (exec sched t)))) = [50; 100; 150; 200]
  /\ now (env (exec sched t)) = 230
  /\ prompt sched t = true
  /\ fst (running (exec sched t)) = true.
Proof. vm_compute. repeat split. Qed.

(** Property P3: single-shot, 50 ms; after [start()] and
    200 ms the callback has been called once and the Timer is stopped. *)
Lemma single_shot_fires_once_witness :
  let s := Timer_new "A"%string 50 None idle_env in
  let sched := [Run 0; Run 0; Elapse 200; Run 0; Run 0; Run 0; Run 0; Run 0] in
  fst (stopped (exec sched (snd (start s)))) = true
  /\ exists tm, log (env (exec sched (snd (start s)))) = [mkCall 0 tm "A"%string]
                /\ 0 + Z.max 0 50 <= tm.
Proof.
  intros s sched.
  pose proof (single_shot_fires_once s sched eq_refl eq_refl eq_refl) as H.
  cbv zeta in H. destruct H as (_ & _ & _ & _ & H).
  apply H. reflexivity.
Defined.

(** The mode is assigned three times while the single-shot loop runs. *)
Lemma single_shot_loop_ignores_mode_witness :
  let s := Timer_new "A"%string 50 (Some true) idle_env in
  let sched :=
    [Run 0; SetSingleShot false; Run 0; Elapse 50; Run 0; SetSingleShot true;
     Run 0; Run 0; SetSingleShot false; Run 0; Run 0] in
  fst (stopped (exec sched (snd (start s)))) = true
  /\ exists tm, log (env (exec sched (snd (start s)))) = [mkCall 0 tm "A"%string]
                /\ 0 + Z.max 0 50 <= tm.
Proof.
  intros s sched.
  pose proof (single_shot_loop_ignores_mode s sched false eq_refl eq_refl eq_refl)
    as H.
  cbv zeta in H. destruct H as (_ & _ & _ & H & _).
  apply H. reflexivity.
Defined.

(** A repeating Timer (50 ms) has ticked once and is past the second check
    of its second round when the mode is assigned single-shot: it calls
    once more, leaves the [while] and sets the flag. *)
Lemma repeating_loop_mode_downgrade_witness :
  let s := exec (one_tick 0 50 ++ [Run 0; Run 0; Run 0; Elapse 50; Run 0; Run 0])
             (snd (start (Timer_new "A"%string 50 (Some false) idle_env))) in
  let s1 := snd (assign_is_single_shot true s) in
  threads (env s) !! 0%nat = Some R_Invoke
  /\ threads (env (run_alone 8 0 s1)) !! 0%nat = Some Done
  /\ fst (stopped (run_alone 8 0 s1)) = true
  /\ exists new, log (env (run_alone 8 0 s1)) = new ++ log (env s)
                 /\ (length new <= 1)%nat.
Proof.
  intros s s1. split; [reflexivity|].
  pose proof (repeating_loop_mode_downgrade s 0 R_Invoke
                [Run 0; Run 0; Run 0; Run 0] eq_refl eq_refl eq_refl) as H.
  cbv zeta in H. destruct H as (_ & _ & _ & _ & H & _).
  exact H.
Defined.

(** The header example at 2100 ms: the loop sleeps in its third round when
    the callback is assigned; this round, in flight, calls B at 3000 ms. *)
Lemma callback_replacement_takes_effect_at_next_call_witness :
  let s := exec (one_tick 0 1000 ++ one_tick 0 1000
                 ++ [Run 0; Run 0; Run 0; Elapse 100])
             (snd (start (Timer_new "A"%string 1000 (Some false) idle_env))) in
  let s1 := snd (assign_function "B"%string s) in
  let sched := [Elapse 900; Run 0; Run 0; Run 0; Run 0] ++ one_tick 0 1000 in
  threads (env s) !! 0%nat = Some (R_Sleeping 3000)
  /\ (exists n tm, (n <= 5)%nat
        /\ log (env (run_alone n 0 s1)) = mkCall 0 tm "B"%string :: log (env s)
        /\ threads (env (run_alone n 0 s1)) !! 0%nat = Some R_InCall)
  /\ exists new, log (env (exec sched s1)) = new ++ log (env s)
                 /\ Forall (fun c => call_fn c = "B"%string) new.
Proof.
  intros s s1 sched. split; [reflexivity|].
  assert (Hne : R_Sleeping 3000 <> R_SetStopped) by discriminate.
  pose proof (callback_replacement_takes_effect_at_next_call s 0 (R_Sleeping 3000)
                "B"%string sched eq_refl eq_refl Hne eq_refl eq_refl eq_refl) as H.
  cbv zeta in H. destruct H as (_ & H1 & _ & H2).
  split; [exact (H1 eq_refl)|exact H2].
Defined.

(** The claim on the callback as the specification words it fails on the
    header example: at 2100 ms the third tick is in flight (the loop sleeps
    until 3000 ms) and the callback held is A; B is assigned; the call of
    this tick, three statements later, is a call of B. *)
Lemma in_flight_tick_calls_new_callback :
  let s := exec (one_tick 0 1000 ++ one_tick 0 1000
                 ++ [Run 0; Run 0; Run 0; Elapse 100])
             (snd (start (Timer_new "A"%string 1000 (Some false) idle_env))) in
  threads (env s) !! 0%nat = Some (R_Sleeping 3000)
  /\ tick_in_flight (R_Sleeping 3000) = true
  /\ fst (function s) = "A"%string
  /\ log (env (run_alone 3 0 (snd (assign_function "B"%string s)))) =
       mkCall 0 3000 "B"%string :: log (env s)
  /\ ~ in_flight_tick_calls_old s 0 "B"%string.
Proof.
  intros s. repeat apply conj; try reflexivity.
  intros H.
  assert (Hle : (3 <= 5)%nat) by lia.
  specialize (H 3%nat 3000 "B"%string Hle eq_refl).
  vm_compute in H. discriminate H.
Qed.



(** * Concrete runs for the further properties *)

(** Started, stopped and started again: the Timer runs and has loops;
    had the first creation of a thread failed, it would run without one. *)
Lemma running_has_live_loop_witness :
  let s := Timer_new "A"%string 50 None idle_env in
  let sched := [Start; Run 0; Stop; Start; Run 0; Elapse 50] in
  fst (running (exec sched s)) = true
  /\ has_live_loop (exec sched s)
  /\ fst (running (start_spawn_fails s)) = true
  /\ ~ has_live_loop (start_spawn_fails s).
Proof.
  intros s sched.
  assert (H0 : _stopped (timer s) = false -> has_live_loop s)
    by (intros H; discriminate H).
  destruct (running_has_live_loop sched s H0) as (H1 & H2).
  split; [reflexivity|]. split; [exact (H1 eq_refl)|].
  exact (H2 s eq_refl eq_refl).
Defined.

(** The creation of the thread fails in the first [start()] of a Timer;
    [start()] is called three more times, the loop that does not exist is
    scheduled, time passes. *)
Lemma failed_spawn_wedges_the_timer_witness :
  let s := Timer_new "A"%string 50 None idle_env in
  let sched := [Start; Start; Run 0; Elapse 100; SetFunction "B"%string; Start] in
  fst (running (exec sched (start_spawn_fails s))) = true
  /\ threads (env (exec sched (start_spawn_fails s))) = []
  /\ log (env (exec sched (start_spawn_fails s))) = []
  /\ has_live_loop (exec [Stop; Start] (start_spawn_fails s)).
Proof.
  intros s sched.
  destruct (failed_spawn_wedges_the_timer s sched eq_refl (List.Forall_nil _) eq_refl)
    as (_ & _ & _ & H4 & H5 & H6 & H7).
  repeat apply conj; assumption.
Defined.


(** A repeating Timer of 50 ms is stopped and restarted in the middle of
    its second round. *)
Lemma calls_of_a_loop_are_paced_witness :
  let s := Timer_new "A"%string 50 (Some false) idle_env in
  let sched :=
    one_tick 0 50 ++ [Run 0; Run 0; Run 0; Elapse 10; Stop; Start; Elapse 40]
    ++ [Run 0; Run 0; Run 0; Run 0] ++ one_tick 0 50 ++ one_tick 1 50 in
  exists new,
    log (env (exec sched (snd (start s)))) = new ++ log (env s)
    /\ spaced (Z.max 0 50) (call_times 0 new)
    /\ Forall (fun tm => 0 + Z.max 0 50 <= tm) (call_times 0 new).
Proof.
  intros s sched. exact (calls_of_a_loop_are_paced s sched eq_refl).
Defined.

(** A repeating loop is 20 ms into its sleep when the Timer is stopped
    and started again. *)
Lemma restart_leaves_two_loops_witness :
  let s := exec [Run 0; Run 0; Run 0; Elapse 20]
             (snd (start (Timer_new "A"%string 50 (Some false) idle_env))) in
  threads (env (exec [Stop; Start] s)) = [R_Sleeping 50; R_While]
  /\ exists n m tm1 tm2,
       log (env (run_alone m 1 (run_alone n 0 (exec [Stop; Start] s)))) =
         [mkCall 1 tm2 "A"%string; mkCall 0 tm1 "A"%string].
Proof.
  intros s.
  assert (Hne : R_Sleeping 50 <> R_SetStopped) by discriminate.
  destruct (restart_leaves_two_loops s 0 (R_Sleeping 50)
              eq_refl eq_refl Hne eq_refl eq_refl)
    as (H1 & _ & n & m & tm1 & tm2 & Hlog & _).
  split; [exact H1|]. exists n, m, tm1, tm2. exact Hlog.
Defined.

(** A repeating loop has just passed its second check, at 50 ms, when
    [stop()] is called. *)
Lemma late_stop_fires_once_more_witness :
  let s := exec [Run 0; Run 0; Run 0; Elapse 50; Run 0; Run 0]
             (snd (start (Timer_new "A"%string 50 (Some false) idle_env))) in
  threads (env s) !! 0%nat = Some R_Invoke
  /\ log (env (run_alone 4 0 (snd (stop s)))) = [mkCall 0 50 "A"%string]
  /\ fst (stopped (run_alone 4 0 (snd (stop s)))) = true.
Proof.
  intros s. split; [reflexivity|].
  destruct (late_stop_fires_once_more s 0 R_Invoke eq_refl eq_refl)
    as (_ & H2 & _ & H4).
  split; [exact H2|exact H4].
Defined.

(** A Timer started in repeating mode and switched to single-shot before
    its loop has executed a statement never fires. *)
Lemma downgrade_fires_once_or_never_witness :
  let s := snd (start (Timer_new "A"%string 50 (Some false) idle_env)) in
  threads (env s) !! 0%nat = Some R_While
  /\ log (env (run_alone 8 0 (snd (assign_is_single_shot true s)))) = [].
Proof.
  intros s. split; [reflexivity|].
  destruct (downgrade_fires_once_or_never s 0 R_While eq_refl eq_refl)
    as (H1 & _).
  exact (H1 eq_refl).
Defined.

(** Three rounds of a repeating Timer with a delay of zero. *)
Lemma nonpositive_delay_fires_without_waiting_witness :
  let s := snd (start (Timer_new "A"%string 0 (Some false) idle_env)) in
  log (env (run_alone 21 0 s)) =
    [mkCall 0 0 "A"%string; mkCall 0 0 "A"%string; mkCall 0 0 "A"%string]
  /\ now (env (run_alone 21 0 s)) = 0.
Proof.
  intros s.
  destruct (nonpositive_delay_fires_without_waiting s 0 3
              eq_refl eq_refl eq_refl (Z.le_refl 0)) as (H1 & H2 & _).
  split; [exact H1|exact H2].
Defined.

(** A single-shot Timer of 50 ms fires, is started again and fires again. *)
Lemma single_shot_can_be_restarted_witness :
  let s := Timer_new "A"%string 50 None idle_env in
  let s1 := run_alone 7 0 (snd (start s)) in
  let s2 := run_alone 7 1 (snd (start s1)) in
  threads (env s2) = [Done; Done]
  /\ log (env s2) = [mkCall 1 100 "A"%string; mkCall 0 50 "A"%string]
  /\ fst (stopped s2) = true.
Proof.
  intros s s1 s2.
  destruct (single_shot_can_be_restarted s eq_refl eq_refl)
    as (_ & _ & H3 & H4 & H5).
  split; [exact H3|]. split; [exact H4|exact H5].
Defined.
